(** * simple-rag: the document-to-chunk pipeline of [utils/chunking.py]

    A shallow embedding of the chunk builder ([chunk_sentences]), of the
    oversized-sentence splitter ([_split_text_by_tokens]) and of the
    page-range formatter ([_page_range]), with the properties the
    specification states about them.

    Conventions of the embedding:
    - Python [int] is [Z]; [len] results are injected with [Z.of_nat].
    - Python [str] is [string]; one [ascii] stands for one code point
      (the Latin-1 range), so [str.strip] trims the code points for which
      [str.isspace] holds in that range.
    - [tiktoken]'s encoding [ENC] is not code of the repository: it is the
      interface [Tokenizer] ([encode], [decode]), and every function that
      reads the global [ENC] takes an instance of it.
    - [while] loops run on fuel and return [None] when the fuel is
      exhausted; the theorems show which fuel always suffices. *)

From Stdlib Require Import List ZArith Lia Bool Ascii String DecimalString.
From Stdlib Require Import Sorting.Sorted DecimalPos DecimalZ.
Import ListNotations.

Local Open Scope string_scope.
Local Open Scope list_scope.
Local Open Scope Z_scope.

(** ** Python built-ins used by the module *)

Module Py.

(** [str.isspace] on one code point below 256. *)
Definition is_space (c : ascii) : bool :=
  let n := nat_of_ascii c in
  ((9 <=? n) && (n <=? 13) || (28 <=? n) && (n <=? 32)
   || (n =? 133) || (n =? 160))%nat.

Fixpoint lstrip (s : string) : string :=
  match s with
  | EmptyString => EmptyString
  | String c r => if is_space c then lstrip r else s
  end.

Fixpoint rstrip (s : string) : string :=
  match s with
  | EmptyString => EmptyString
  | String c r =>
      match rstrip r with
      | EmptyString => if is_space c then EmptyString else String c EmptyString
      | r' => String c r'
      end
  end.

(** [s.strip()] *)
Definition strip (s : string) : string := rstrip (lstrip s).

(** Truthiness of a [str]: [if s] / [if not s]. *)
Definition truthy (s : string) : bool :=
  match s with EmptyString => false | _ => true end.

(** [sep.join(parts)] *)
Fixpoint join (sep : string) (parts : list string) : string :=
  match parts with
  | [] => EmptyString
  | [p] => p
  | p :: rest => (p ++ sep ++ join sep rest)%string
  end.

(** [str(n)] for an [int]. *)
Definition str (n : Z) : string := NilZero.string_of_int (Z.to_int n).

(** Insertion of [x] in a strictly increasing list, keeping it so. *)
Fixpoint insert_set (x : Z) (l : list Z) : list Z :=
  match l with
  | [] => [x]
  | y :: r =>
      if x <? y then x :: l
      else if x =? y then l
      else y :: insert_set x r
  end.

(** [sorted(set(l))] *)
Definition sorted_set (l : list Z) : list Z :=
  fold_right insert_set [] l.

(** Index normalisation of a slice bound on a sequence of length [n]. *)
Definition clamp (n k : Z) : Z :=
  if k <? 0 then Z.max 0 (n + k) else Z.min k n.

(** [l[a:b]] *)
Definition slice {A : Type} (l : list A) (a b : Z) : list A :=
  let n := Z.of_nat (List.length l) in
  let a' := clamp n a in
  let b' := clamp n b in
  firstn (Z.to_nat (b' - a')) (skipn (Z.to_nat a') l).

(** Truthiness of a [list]: [if l]. *)
Definition nonempty {A : Type} (l : list A) : bool :=
  match l with [] => false | _ => true end.

(** The line feed of the literal [\n]. *)
Definition nl : string := String (ascii_of_nat 10) EmptyString.

(** [sum(...)] over integers. *)
Definition sum (l : list Z) : Z := fold_right Z.add 0 l.

End Py.

(** ** The tokenizer interface ([tiktoken]'s [ENC]) *)

Class Tokenizer : Type := {
  encode : string -> list Z;
  decode : list Z -> string
}.

(** ** Data model *)

(** [parsers.Sentence] *)
Record Sentence : Type := mkSentence {
  text : string;
  page : option Z
}.

(** [chunking.Chunk] *)
Record Chunk : Type := mkChunk {
  chunk_number : Z;
  page_number : string;
  embedded_text : string;
  raw_text : string
}.

(** ** [_tok_len] *)

Definition _tok_len `{Tokenizer} (s : string) : Z :=
  Z.of_nat (List.length (encode s)).

(** ** [_page_range] *)

(** [all(pages[i] + 1 == pages[i + 1] for i in range(len(pages) - 1))] *)
Fixpoint consecutive (pages : list Z) : bool :=
  match pages with
  | p :: ((q :: _) as rest) => (p + 1 =? q) && consecutive rest
  | _ => true
  end.

Definition _page_range (pages : list Z) : string :=
  let pages := Py.sorted_set pages in
  match pages with
  | [] => ""
  | [p] => Py.str p
  | p0 :: _ =>
      if consecutive pages
      then (Py.str p0 ++ "-" ++ Py.str (last pages 0))%string
      else Py.join "," (map Py.str pages)
  end.

(** ** [_split_text_by_tokens] *)

(** The window advance: [max_tokens - max(0, overlap_tokens)], replaced by
    [max_tokens] when that is not positive. *)
Definition split_step (max_tokens overlap_tokens : Z) : Z :=
  let step := max_tokens - Z.max 0 overlap_tokens in
  if step <=? 0 then max_tokens else step.

(** The [while start < len(toks)] loop; one unit of fuel per iteration. *)
Fixpoint split_loop `{Tokenizer} (fuel : nat) (toks : list Z)
    (max_tokens step start : Z) (pieces : list string)
  : option (list string) :=
  let n := Z.of_nat (List.length toks) in
  if start <? n then
    match fuel with
    | O => None
    | S fuel' =>
        let end_ := Z.min (start + max_tokens) n in
        let piece := Py.strip (decode (Py.slice toks start end_)) in
        let pieces := if Py.truthy piece then pieces ++ [piece] else pieces in
        if end_ =? n then Some pieces
        else split_loop fuel' toks max_tokens step (start + step) pieces
    end
  else Some pieces.

Definition _split_text_by_tokens `{Tokenizer}
    (text : string) (max_tokens overlap_tokens : Z) : option (list string) :=
  let toks := encode text in
  if Z.of_nat (List.length toks) <=? max_tokens then Some [text]
  else
    split_loop (List.length toks) toks max_tokens
      (split_step max_tokens overlap_tokens) 0 [].

(** ** [chunk_sentences] *)

(** The nested [finalize(current, n)]. *)
Definition finalize (file_name : string) (current : list Sentence) (n : Z)
  : Chunk :=
  let raw := Py.strip (Py.join " " (map text current)) in
  let pages :=
    flat_map (fun s => match page s with Some p => [p] | None => [] end)
      current in
  let page_str := _page_range pages in
  let page_str := if Py.truthy page_str then page_str else Py.str n in
  let embedded := (file_name ++ Py.nl ++ Py.nl ++ raw)%string in
  {| chunk_number := n;
     page_number := page_str;
     embedded_text := embedded;
     raw_text := raw |}.

(** The local variables of [chunk_sentences] that live across iterations. *)
Record State : Type := mkState {
  i : nat;
  cur : list Sentence;
  cur_toks : Z;
  chunk_no : Z;
  chunks : list Chunk
}.

Definition init_state : State :=
  {| i := 0; cur := []; cur_toks := 0; chunk_no := 1; chunks := [] |}.

(** [for ss in reversed(prev_cur)] with its [break], started on the
    reversed chunk with [overlap = []] and [overlap_toks = 0]. *)
Fixpoint overlap_walk `{Tokenizer} (overlap_tokens : Z)
    (rs : list Sentence) (overlap : list Sentence) (overlap_toks : Z)
  : list Sentence * Z :=
  match rs with
  | [] => (overlap, overlap_toks)
  | ss :: rest =>
      let tt := _tok_len (text ss) in
      if Py.nonempty overlap && (overlap_toks + tt >? overlap_tokens)
      then (overlap, overlap_toks)
      else
        overlap_walk overlap_tokens rest (overlap ++ [ss])
          (overlap_toks + tt)
  end.

(** The overlap after [overlap.reverse()], with its token total, before the
    comparison with the finalized chunk. *)
Definition build_overlap `{Tokenizer} (overlap_tokens : Z)
    (prev_cur : list Sentence) : list Sentence * Z :=
  let '(overlap, overlap_toks) :=
    overlap_walk overlap_tokens (rev prev_cur) [] 0 in
  (rev overlap, overlap_toks).

(** The seed of the next accumulator: the overlap, or nothing when
    [len(overlap) == prev_len and overlap_toks == prev_toks]. *)
Definition next_seed `{Tokenizer} (overlap_tokens : Z)
    (prev_cur : list Sentence) (prev_toks : Z) : list Sentence * Z :=
  let '(overlap, overlap_toks) := build_overlap overlap_tokens prev_cur in
  if (List.length overlap =? List.length prev_cur)%nat
     && (overlap_toks =? prev_toks)
  then ([], 0)
  else (overlap, overlap_toks).

(** [if cur: chunks.append(finalize(cur, chunk_no)); chunk_no += 1;
    cur = []; cur_toks = 0] *)
Definition flush (file_name : string) (st : State) : State :=
  if Py.nonempty (cur st) then
    {| i := i st; cur := []; cur_toks := 0;
       chunk_no := chunk_no st + 1;
       chunks := chunks st ++ [finalize file_name (cur st) (chunk_no st)] |}
  else st.

(** [for part in parts: chunks.append(finalize([Sentence(part, s.page)],
    chunk_no)); chunk_no += 1] *)
Definition emit_parts (file_name : string) (pg : option Z)
    (parts : list string) (st : State) : State :=
  fold_left
    (fun st part =>
       {| i := i st; cur := cur st; cur_toks := cur_toks st;
          chunk_no := chunk_no st + 1;
          chunks := chunks st ++
            [finalize file_name [mkSentence part pg] (chunk_no st)] |})
    parts st.

Definition advance (st : State) : State :=
  {| i := S (i st); cur := cur st; cur_toks := cur_toks st;
     chunk_no := chunk_no st; chunks := chunks st |}.

(** One iteration of [while i < len(sentences)] on [s = sentences[i]];
    [s.text or ""] is [s.text], the [str] field of a [Sentence].
    [None] when the splitter does not return. *)
Definition loop_body `{Tokenizer} (file_name : string)
    (target_tokens overlap_tokens : Z) (s : Sentence) (st : State)
  : option State :=
  let t := Py.strip (text s) in
  if negb (Py.truthy t) then Some (advance st)
  else
    let s_tokens := _tok_len t in
    if s_tokens >? target_tokens then
      let st := flush file_name st in
      match _split_text_by_tokens t target_tokens overlap_tokens with
      | None => None
      | Some parts => Some (advance (emit_parts file_name (page s) parts st))
      end
    else if Py.nonempty (cur st) && (cur_toks st + s_tokens >? target_tokens)
    then
      let '(overlap, overlap_toks) :=
        next_seed overlap_tokens (cur st) (cur_toks st) in
      Some {| i := i st; cur := overlap; cur_toks := overlap_toks;
              chunk_no := chunk_no st + 1;
              chunks := chunks st ++
                [finalize file_name (cur st) (chunk_no st)] |}
    else
      Some {| i := S (i st); cur := cur st ++ [s];
              cur_toks := cur_toks st + s_tokens;
              chunk_no := chunk_no st; chunks := chunks st |}.

(** The [while] loop; one unit of fuel per iteration. *)
Fixpoint chunk_loop `{Tokenizer} (fuel : nat) (file_name : string)
    (target_tokens overlap_tokens : Z) (sentences : list Sentence)
    (st : State) : option State :=
  match nth_error sentences (i st) with
  | None => Some st
  | Some s =>
      match fuel with
      | O => None
      | S fuel' =>
          match loop_body file_name target_tokens overlap_tokens s st with
          | None => None
          | Some st' =>
              chunk_loop fuel' file_name target_tokens overlap_tokens
                sentences st'
          end
      end
  end.

(** [if cur: chunks.append(finalize(cur, chunk_no))] and [return chunks]. *)
Definition finish (file_name : string) (st : State) : list Chunk :=
  if Py.nonempty (cur st)
  then chunks st ++ [finalize file_name (cur st) (chunk_no st)]
  else chunks st.

(** [chunk_sentences] run for at most [fuel] iterations of its loop. *)
Definition chunk_sentences_fuel `{Tokenizer} (fuel : nat)
    (sentences : list Sentence) (file_name : string)
    (target_tokens overlap_tokens : Z) : option (list Chunk) :=
  option_map (finish file_name)
    (chunk_loop fuel file_name target_tokens overlap_tokens sentences
       init_state).

(** [chunk_sentences(sentences, file_name=..., target_tokens=...,
    overlap_tokens=...)]: three iterations for each sentence are allowed,
    which is never too few ([chunk_loop_terminates]). *)
Definition chunk_sentences `{Tokenizer} (sentences : list Sentence)
    (file_name : string) (target_tokens overlap_tokens : Z)
  : option (list Chunk) :=
  chunk_sentences_fuel (3 * List.length sentences) sentences file_name
    target_tokens overlap_tokens.

(** ** A tokenizer to run the code on: one token for each character *)

Fixpoint char_encode (s : string) : list Z :=
  match s with
  | EmptyString => []
  | String c r => Z.of_nat (nat_of_ascii c) :: char_encode r
  end.

Fixpoint char_decode (l : list Z) : string :=
  match l with
  | [] => EmptyString
  | z :: r => String (ascii_of_nat (Z.to_nat z)) (char_decode r)
  end.

Definition char_tokenizer : Tokenizer :=
  {| encode := char_encode; decode := char_decode |}.

(** ** The history of a run: what each chunk was built from *)

(** What one chunk was finalized from: its sentences, how many of them (at
    the front) were carried over as overlap from the chunk before, and
    whether it is a piece of the oversized-sentence splitter. *)
Record Group : Type := mkGroup {
  g_sents : list Sentence;
  g_seed : nat;
  g_split : bool
}.

(** History kept beside the state: how many sentences at the front of
    [cur] are carried-over overlap, and the groups finalized so far. *)
Record Ghost : Type := mkGhost {
  seed : nat;
  groups : list Group
}.

Definition init_ghost : Ghost := {| seed := 0; groups := [] |}.

Definition flush_groups (st : State) (gh : Ghost) : list Group :=
  if Py.nonempty (cur st) then [mkGroup (cur st) (seed gh) false] else [].

Definition piece_groups (pg : option Z) (parts : list string) : list Group :=
  map (fun part => mkGroup [mkSentence part pg] 0%nat true) parts.

(** The history after the iteration that [loop_body] runs on [s]. *)
Definition ghost_body `{Tokenizer} (target_tokens overlap_tokens : Z)
    (s : Sentence) (st : State) (gh : Ghost) : Ghost :=
  let t := Py.strip (text s) in
  if negb (Py.truthy t) then gh
  else
    let s_tokens := _tok_len t in
    if s_tokens >? target_tokens then
      let parts :=
        match _split_text_by_tokens t target_tokens overlap_tokens with
        | Some parts => parts
        | None => []
        end in
      {| seed := 0;
         groups := groups gh ++ flush_groups st gh
                     ++ piece_groups (page s) parts |}
    else if Py.nonempty (cur st) && (cur_toks st + s_tokens >? target_tokens)
    then
      {| seed :=
           List.length (fst (next_seed overlap_tokens (cur st) (cur_toks st)));
         groups := groups gh ++ [mkGroup (cur st) (seed gh) false] |}
    else gh.

Fixpoint ghost_loop `{Tokenizer} (fuel : nat) (file_name : string)
    (target_tokens overlap_tokens : Z) (sentences : list Sentence)
    (st : State) (gh : Ghost) : Ghost :=
  match nth_error sentences (i st) with
  | None => gh
  | Some s =>
      match fuel with
      | O => gh
      | S fuel' =>
          match loop_body file_name target_tokens overlap_tokens s st with
          | None => gh
          | Some st' =>
              ghost_loop fuel' file_name target_tokens overlap_tokens
                sentences st'
                (ghost_body target_tokens overlap_tokens s st gh)
          end
      end
  end.

(** The groups of all chunks of a run, the last flush included. *)
Definition chunk_groups `{Tokenizer} (sentences : list Sentence)
    (file_name : string) (target_tokens overlap_tokens : Z) : list Group :=
  let fuel := (3 * List.length sentences)%nat in
  match chunk_loop fuel file_name target_tokens overlap_tokens sentences
          init_state with
  | None => []
  | Some st =>
      let gh := ghost_loop fuel file_name target_tokens overlap_tokens
                  sentences init_state init_ghost in
      groups gh ++ flush_groups st gh
  end.

(** The chunks finalized from a list of groups, numbered from [k]. *)
Fixpoint number_from (file_name : string) (k : Z) (gs : list Group)
  : list Chunk :=
  match gs with
  | [] => []
  | g :: r =>
      finalize file_name (g_sents g) k :: number_from file_name (k + 1) r
  end.

(** The sentences of a group that are not carried-over overlap. *)
Definition fresh (g : Group) : list Sentence := skipn (g_seed g) (g_sents g).

(** What the loop makes of one input sentence: nothing when it is blank,
    the pieces of the splitter when it is oversized, itself otherwise. *)
Definition expand `{Tokenizer} (target_tokens overlap_tokens : Z)
    (s : Sentence) : list Sentence :=
  let t := Py.strip (text s) in
  if negb (Py.truthy t) then []
  else if _tok_len t >? target_tokens then
    match _split_text_by_tokens t target_tokens overlap_tokens with
    | Some parts => map (fun part => mkSentence part (page s)) parts
    | None => []
    end
  else [s].

(** Token total of the trimmed texts of a run of sentences. *)
Definition trimmed_toks `{Tokenizer} (l : list Sentence) : Z :=
  Py.sum (map (fun s => _tok_len (Py.strip (text s))) l).

(** Where the accumulator stands in the retry cycle: empty, a seed that
    the next overflow discards, or anything else. *)
Definition phase `{Tokenizer} (overlap_tokens : Z) (st : State) : nat :=
  match cur st with
  | [] => 0
  | _ =>
      let '(ov, ot) := build_overlap overlap_tokens (cur st) in
      if (List.length ov =? List.length (cur st))%nat && (ot =? cur_toks st)
      then 1 else 2
  end.

(** The iterations still to run are at most this many. *)
Definition measure `{Tokenizer} (overlap_tokens : Z)
    (sentences : list Sentence) (st : State) : nat :=
  3 * (List.length sentences - i st) + phase overlap_tokens st.

(** Token total of a run of sentences as the walk counts it. *)
Definition walk_toks `{Tokenizer} (l : list Sentence) : Z :=
  Py.sum (map (fun ss => _tok_len (text ss)) l).

(** A run on which the walk never stops. *)
Definition taken_whole `{Tokenizer} (overlap_tokens : Z)
    (rs acc : list Sentence) (t : Z) : Prop :=
  overlap_walk overlap_tokens rs acc t = (acc ++ rs, t + walk_toks rs).

(** The sentences of the chunk finalized last, [prev] when there is none. *)
Definition last_sents (prev : list Sentence) (gs : list Group)
  : list Sentence :=
  fold_left (fun _ g => g_sents g) gs prev.

(** Every group starts with [g_seed] sentences that end the group before
    it ([prev] for the first one). *)
Fixpoint carried_ok (prev : list Sentence) (gs : list Group) : Prop :=
  match gs with
  | [] => True
  | g :: r =>
      (g_seed g <= List.length (g_sents g))%nat /\
      (exists pre, prev = pre ++ firstn (g_seed g) (g_sents g)) /\
      carried_ok (g_sents g) r
  end.

(** ** One iteration as a step relation, and the loop invariants *)

(** One iteration, by the branch it takes. *)
Inductive step `{Tokenizer} (file_name : string) (T O : Z)
    (s : Sentence) (st : State) (gh : Ghost) : State -> Ghost -> Prop :=
| step_blank :
    Py.strip (text s) = "" ->
    step file_name T O s st gh (advance st) gh
| step_split (parts : list string) :
    Py.strip (text s) <> "" ->
    T < _tok_len (Py.strip (text s)) ->
    _split_text_by_tokens (Py.strip (text s)) T O = Some parts ->
    step file_name T O s st gh
      (advance (emit_parts file_name (page s) parts (flush file_name st)))
      {| seed := 0;
         groups := groups gh ++ flush_groups st gh
                     ++ piece_groups (page s) parts |}
| step_overflow :
    Py.strip (text s) <> "" ->
    _tok_len (Py.strip (text s)) <= T ->
    cur st <> [] ->
    T < cur_toks st + _tok_len (Py.strip (text s)) ->
    step file_name T O s st gh
      {| i := i st;
         cur := fst (next_seed O (cur st) (cur_toks st));
         cur_toks := snd (next_seed O (cur st) (cur_toks st));
         chunk_no := chunk_no st + 1;
         chunks := chunks st ++ [finalize file_name (cur st) (chunk_no st)] |}
      {| seed := List.length (fst (next_seed O (cur st) (cur_toks st)));
         groups := groups gh ++ [mkGroup (cur st) (seed gh) false] |}
| step_add :
    Py.strip (text s) <> "" ->
    _tok_len (Py.strip (text s)) <= T ->
    (cur st = [] \/ cur_toks st + _tok_len (Py.strip (text s)) <= T) ->
    step file_name T O s st gh
      {| i := S (i st); cur := cur st ++ [s];
         cur_toks := cur_toks st + _tok_len (Py.strip (text s));
         chunk_no := chunk_no st; chunks := chunks st |}
      gh.

(** The chunks appended so far are the groups of the history, numbered
    from 1, and [chunk_no] is the next number. *)
Definition numbered (file_name : string) (st : State) (gh : Ghost)
  : Prop :=
  chunks st = number_from file_name 1 (groups gh) /\
  chunk_no st = 1 + Z.of_nat (List.length (groups gh)).

(** The history accounts for the input read so far: the seed is a prefix
    of the accumulator and a suffix of the chunk before it, and the fresh
    sentences of the groups, followed by those of the accumulator, are what
    the loop makes of the sentences before the input pointer. *)
Definition covered `{Tokenizer} (T O : Z) (sentences : list Sentence)
    (st : State) (gh : Ghost) : Prop :=
  (seed gh <= List.length (cur st))%nat /\
  carried_ok [] (groups gh) /\
  (exists pre, last_sents [] (groups gh) = pre ++ firstn (seed gh) (cur st)) /\
  List.concat (map fresh (groups gh)) ++ skipn (seed gh) (cur st) =
    flat_map (expand T O) (firstn (i st) sentences).

(** The trimmed texts of the accumulator, and of every finalized group
    that is not a piece of the splitter, stay within the budget. *)
Definition within_budget `{Tokenizer} (T : Z) (sentences : list Sentence)
    (st : State) (gh : Ghost) : Prop :=
  trimmed_toks (cur st) <= cur_toks st /\
  trimmed_toks (cur st) <= T /\
  (forall x, In x (cur st) -> In x sentences) /\
  (forall g, In g (groups gh) -> g_split g = false ->
             trimmed_toks (g_sents g) <= T).

(** ** Tokenizers and windows used to state the splitter's behaviour *)

(** A tokenizer with one merged token: the three characters space, "a",
    "b" are the token 256, every other character is its own token. *)
Fixpoint merge_encode (s : string) : list Z :=
  match s with
  | EmptyString => []
  | String c r =>
      match r with
      | String a (String b r') =>
          if (c =? " ")%char && (a =? "a")%char && (b =? "b")%char
          then 256 :: merge_encode r'
          else Z.of_nat (nat_of_ascii c) :: merge_encode r
      | _ => Z.of_nat (nat_of_ascii c) :: merge_encode r
      end
  end.

Fixpoint merge_decode (l : list Z) : string :=
  match l with
  | [] => EmptyString
  | z :: r =>
      if z =? 256 then (" ab" ++ merge_decode r)%string
      else String (ascii_of_nat (Z.to_nat z)) (merge_decode r)
  end.

Definition merge_tokenizer : Tokenizer :=
  {| encode := merge_encode; decode := merge_decode |}.

(** [c * n + tail] for a one-character string [c]. *)
Fixpoint chars (n : nat) (c : ascii) (tail : string) : string :=
  match n with
  | O => tail
  | S n' => String c (chars n' c tail)
  end.

(** The windows as the specification lays them out: window [k] starts at
    [k * step] and is [T] tokens wide, cut at the end [n] of the token
    sequence; the last window is the first one that reaches [n]. *)
Definition window_count (n T step : Z) : nat :=
  S (Z.to_nat ((n - T + step - 1) / step)).

Definition window (n T step : Z) (k : nat) : Z * Z :=
  (Z.of_nat k * step, Z.min (Z.of_nat k * step + T) n).

Definition windows (n T step : Z) : list (Z * Z) :=
  map (window n T step) (seq 0 (window_count n T step)).

(** The piece cut from one window. *)
Definition piece_of `{Tokenizer} (toks : list Z) (w : Z * Z) : string :=
  Py.strip (decode (Py.slice toks (fst w) (snd w))).

(** ** [parsers.py]: the sentence segmenter *)

(** [s.replace("\x00", " ")] *)
Fixpoint replace_nul (s : string) : string :=
  match s with
  | EmptyString => EmptyString
  | String c r =>
      String (if (c =? zero)%char then " "%char else c) (replace_nul r)
  end.

(** [re.sub(r"\s+", " ", s)]: every maximal run of whitespace becomes one
    space; [in_run] tells that the character before was whitespace. *)
Fixpoint sub_ws (in_run : bool) (s : string) : string :=
  match s with
  | EmptyString => EmptyString
  | String c r =>
      if Py.is_space c then
        if in_run then sub_ws true r else String " " (sub_ws true r)
      else String c (sub_ws false r)
  end.

(** [_clean_text] *)
Definition _clean_text (s : string) : string :=
  let s := replace_nul s in
  Py.strip (sub_ws false s).

(** Where a scan of [_SENTENCE_SPLIT = (?<=[.!?])\s+] stands: after an
    ordinary character, right after one of [.!?], or inside a separator. *)
Inductive SplitMode : Type := Plain | AfterStop | InGap.

(** The character class [[.!?]]. *)
Definition is_stop (c : ascii) : bool :=
  ((c =? ".") || (c =? "!") || (c =? "?"))%char.

Definition cons_head (c : ascii) (l : list string) : list string :=
  match l with
  | [] => [String c EmptyString]
  | p :: ps => String c p :: ps
  end.

(** [_SENTENCE_SPLIT.split(text)]: the text is cut at every whitespace run
    that follows one of [.!?]; the run itself is dropped.  The head of the
    result is the rest of the piece the scan is in. *)
Fixpoint sentence_split (mode : SplitMode) (s : string) : list string :=
  match s with
  | EmptyString => [EmptyString]
  | String c r =>
      if Py.is_space c then
        match mode with
        | Plain => cons_head c (sentence_split Plain r)
        | AfterStop => EmptyString :: sentence_split InGap r
        | InGap => sentence_split InGap r
        end
      else
        cons_head c (sentence_split (if is_stop c then AfterStop else Plain) r)
  end.

(** [split_sentences] *)
Definition split_sentences (text : string) (page : option Z)
  : list Sentence :=
  let text := _clean_text text in
  if negb (Py.truthy text) then []
  else
    let parts := sentence_split Plain text in
    flat_map
      (fun p =>
         let p := Py.strip p in
         if Py.truthy p then [mkSentence p page] else [])
      parts.

(** The loop of [parse_pdf] over the texts that [page.extract_text()]
    gives for the pages of the reader ([None] where it gives nothing):
    page [i] of the enumeration is numbered [i + 1]. *)
Fixpoint parse_pdf_loop (i : nat) (pages : list (option string))
    (all_sentences : list Sentence) : list Sentence :=
  match pages with
  | [] => all_sentences
  | p :: rest =>
      let page_num := Z.of_nat i + 1 in
      let txt := match p with Some t => t | None => EmptyString end in
      parse_pdf_loop (S i) rest
        (all_sentences ++ split_sentences txt (Some page_num))
  end.

(** [parse_pdf], from the extracted page texts on. *)
Definition parse_pdf_pages (pages : list (option string))
  : list Sentence * Z :=
  (parse_pdf_loop 0 pages [], Z.of_nat (List.length pages)).

(** Whitespace runs replaced by one space: what [sub_ws] leaves. *)
Fixpoint single_spaced (prev_space : bool) (s : string) : bool :=
  match s with
  | EmptyString => true
  | String c r =>
      if Py.is_space c then
        (c =? " ")%char && negb prev_space && single_spaced true r
      else negb (c =? zero)%char && single_spaced false r
  end.

(** A text as [_clean_text] leaves it: no NUL, no whitespace but single
    spaces, none of them first or last.  [prev_space] tells that a space
    (or the start) comes before. *)
Fixpoint tidy_from (prev_space : bool) (s : string) : bool :=
  match s with
  | EmptyString => negb prev_space
  | String c r =>
      if Py.is_space c then
        (c =? " ")%char && negb prev_space && tidy_from true r
      else negb (c =? zero)%char && tidy_from false r
  end.

Definition tidy (s : string) : bool :=
  match s with
  | EmptyString => true
  | _ => tidy_from true s
  end.

(** The last character of [prev ++ s] is one of [.!?], [prev_stop] telling
    it of the last character of [prev]. *)
Fixpoint last_stop (prev_stop : bool) (s : string) : bool :=
  match s with
  | EmptyString => prev_stop
  | String c r => last_stop (is_stop c) r
  end.

(** No whitespace follows one of [.!?] inside [prev ++ s], [prev_stop]
    telling it of the last character of [prev]. *)
Fixpoint no_boundary (prev_stop : bool) (s : string) : bool :=
  match s with
  | EmptyString => true
  | String c r =>
      negb (prev_stop && Py.is_space c) && no_boundary (is_stop c) r
  end.

(** [all(P(c) for c in s)] *)
Fixpoint all_chars (P : ascii -> bool) (s : string) : bool :=
  match s with
  | EmptyString => true
  | String c r => P c && all_chars P r
  end.

(** Whitespace or NUL: the characters [_clean_text] turns into spaces. *)
Definition is_blank (c : ascii) : bool :=
  Py.is_space c || (c =? zero)%char.

(** The page number of a sentence, 0 when it has none. *)
Definition page_num (s : Sentence) : Z :=
  match page s with Some k => k | None => 0 end.

(** ** Derived notions for the chunker and its callers *)

(** A sentence the loop appends as it is: not blank and within the
    budget. *)
Definition fits `{Tokenizer} (T : Z) (s : Sentence) : bool :=
  Py.truthy (Py.strip (text s)) && negb (_tok_len (Py.strip (text s)) >? T).

(** Every group carries over fewer sentences than the group before it has
    ([prev] for the first one). *)
Fixpoint seeds_proper (prev : list Sentence) (gs : list Group) : Prop :=
  match gs with
  | [] => True
  | g :: r =>
      (g_seed g = 0 \/ g_seed g < List.length prev)%nat /\
      seeds_proper (g_sents g) r
  end.

(** The pages handed to [_page_range] by [finalize]. *)
Definition pages_of (current : list Sentence) : list Z :=
  flat_map (fun s => match page s with Some p => [p] | None => [] end)
    current.

(** [ChromaStore.add_chunks]: [ids = [f"{file_id}:{c['chunk_number']}"
    for c in chunks]], on the payload that [upload_file] builds from the
    chunks. *)
Definition chroma_ids (file_id : string) (chunks : list Chunk)
  : list string :=
  map (fun c => (file_id ++ ":" ++ Py.str (chunk_number c))%string) chunks.

(** [upload_file]: the batched embedding loop
    [for i in range(0, len(inputs), batch_size)], one unit of fuel for
    each batch.  [embed] stands for [orc.embeddings(model=..., inputs=.)]
    and is [None] where the call raises. *)
Fixpoint embed_loop {E : Type} (fuel : nat)
    (embed : list string -> option (list E)) (inputs : list string)
    (batch_size i : Z) (embeddings : list E) : option (list E) :=
  if i <? Z.of_nat (List.length inputs) then
    match fuel with
    | O => None
    | S fuel' =>
        let batch := Py.slice inputs i (i + batch_size) in
        match embed batch with
        | None => None
        | Some vs =>
            embed_loop fuel' embed inputs batch_size (i + batch_size)
              (embeddings ++ vs)
        end
    end
  else Some embeddings.

(** The embeddings of [upload_file] for the texts of the chunks, with
    [batch_size = 64]. *)
Definition embed_all {E : Type} (embed : list string -> option (list E))
    (chunks : list Chunk) : option (list E) :=
  let inputs := map embedded_text chunks in
  embed_loop (List.length inputs) embed inputs 64 0 [].

(** * Properties *)

(** ** Python built-ins *)

Module PyFacts.
Import Py.

Lemma insert_set_In (a x : Z) (l : list Z) :
  In x (insert_set a l) <-> x = a \/ In x l.
Proof.
  induction l as [|y r IH]; simpl.
  - intuition.
  - destruct (a <? y) eqn:Hlt; [simpl; intuition|].
    destruct (a =? y) eqn:Heq.
    + apply Z.eqb_eq in Heq. subst y. simpl. intuition.
    + simpl. rewrite IH. intuition.
Qed.

Lemma insert_set_sorted (a : Z) (l : list Z) :
  StronglySorted Z.lt l -> StronglySorted Z.lt (insert_set a l).
Proof.
  induction 1 as [|y r Hs IH Hall]; simpl.
  - repeat constructor.
  - destruct (a <? y) eqn:Hlt.
    + apply Z.ltb_lt in Hlt. constructor.
      * constructor; assumption.
      * constructor; [assumption|].
        rewrite Forall_forall in *. intros z Hz.
        specialize (Hall z Hz). lia.
    + destruct (a =? y) eqn:Heq.
      * constructor; assumption.
      * apply Z.ltb_ge in Hlt. apply Z.eqb_neq in Heq.
        constructor; [assumption|].
        rewrite Forall_forall in *. intros z Hz.
        apply insert_set_In in Hz. destruct Hz as [->|Hz]; [lia|auto].
Qed.

Lemma sorted_set_In (l : list Z) (x : Z) : In x (sorted_set l) <-> In x l.
Proof.
  unfold sorted_set. induction l as [|a l IH]; simpl; [tauto|].
  rewrite insert_set_In, IH. intuition.
Qed.

Lemma sorted_set_sorted (l : list Z) : StronglySorted Z.lt (sorted_set l).
Proof.
  unfold sorted_set. induction l as [|a l IH]; simpl.
  - constructor.
  - now apply insert_set_sorted.
Qed.

Lemma sorted_set_nil (l : list Z) : sorted_set l = [] <-> l = [].
Proof.
  split; [|now intros ->].
  destruct l as [|a l]; [reflexivity|]. intros E.
  assert (Hin : In a (sorted_set (a :: l))) by (apply sorted_set_In; now left).
  rewrite E in Hin. destruct Hin.
Qed.

(** A strictly increasing list has no repeated element. *)
Lemma sorted_lt_NoDup (l : list Z) : StronglySorted Z.lt l -> NoDup l.
Proof.
  induction 1 as [|y r Hs IH Hall]; constructor; [|assumption].
  intros Hin. rewrite Forall_forall in Hall. specialize (Hall y Hin). lia.
Qed.

Lemma lstrip_head (c : ascii) (r : string) :
  is_space c = false -> lstrip (String c r) = String c r.
Proof. intros Hc. simpl. now rewrite Hc. Qed.

Lemma lstrip_shape (s : string) :
  lstrip s = EmptyString \/
  exists c r, lstrip s = String c r /\ is_space c = false.
Proof.
  induction s as [|c r IH]; simpl; [now left|].
  destruct (is_space c) eqn:Hc; [assumption|].
  right. now exists c, r.
Qed.

Lemma rstrip_idem (s : string) : rstrip (rstrip s) = rstrip s.
Proof.
  induction s as [|c r IH]; simpl; [reflexivity|].
  destruct (rstrip r) as [|c' r'] eqn:Hr.
  - destruct (is_space c) eqn:Hc; simpl; [reflexivity|]. now rewrite Hc.
  - change (rstrip (String c (String c' r')))
      with (match rstrip (String c' r') with
            | EmptyString =>
                if is_space c then EmptyString else String c EmptyString
            | r0 => String c r0
            end).
    now rewrite IH.
Qed.

Lemma rstrip_head (c : ascii) (r : string) :
  is_space c = false -> exists r', rstrip (String c r) = String c r'.
Proof.
  intros Hc. simpl. destruct (rstrip r); rewrite ?Hc; eauto.
Qed.

(** Trimming a trimmed string changes nothing. *)
Lemma strip_idem (s : string) : strip (strip s) = strip s.
Proof.
  unfold strip.
  destruct (lstrip_shape s) as [E | (c & r & E & Hc)]; rewrite E.
  - reflexivity.
  - destruct (rstrip_head c r Hc) as (r' & E').
    rewrite E'. rewrite (lstrip_head c r' Hc). rewrite <- E'.
    apply rstrip_idem.
Qed.

Lemma length_append (a b : string) :
  String.length (a ++ b) = (String.length a + String.length b)%nat.
Proof. induction a as [|c a IH]; simpl; [reflexivity | now rewrite IH]. Qed.

Lemma join_single (sep x : string) : join sep [x] = x.
Proof. reflexivity. Qed.

Lemma nonempty_false {A : Type} (l : list A) : nonempty l = false <-> l = [].
Proof. destruct l; simpl; split; congruence. Qed.

Lemma nonempty_true {A : Type} (l : list A) : nonempty l = true <-> l <> [].
Proof. destruct l; simpl; split; congruence. Qed.

Lemma truthy_false (s : string) : truthy s = false <-> s = EmptyString.
Proof. destruct s; simpl; split; congruence. Qed.

End PyFacts.

(** ** The page-range formatter *)

Example page_range_5 : _page_range [5] = "5".
Proof. reflexivity. Qed.
Example page_range_345 : _page_range [4; 3; 5; 4] = "3-5".
Proof. reflexivity. Qed.
Example page_range_125 : _page_range [1; 2; 5] = "1,2,5".
Proof. reflexivity. Qed.
Example str_0 : Py.str 0 = "0".
Proof. reflexivity. Qed.
Example str_neg : Py.str (-12) = "-12".
Proof. reflexivity. Qed.
Example strip_ex : Py.strip "  a b  " = "a b".
Proof. reflexivity. Qed.
Example slice_ex : Py.slice [1;2;3;4;5] 1 3 = [2;3].
Proof. reflexivity. Qed.

Lemma consecutive_spec (l : list Z) :
  consecutive l = true <->
  (forall k, (S k < List.length l)%nat -> nth (S k) l 0 = nth k l 0 + 1).
Proof.
  induction l as [|p [|q r] IH].
  - simpl. split; [intros _ k Hk; inversion Hk | reflexivity].
  - simpl. split; [intros _ k Hk; lia | reflexivity].
  - change (consecutive (p :: q :: r))
      with ((p + 1 =? q) && consecutive (q :: r)).
    rewrite andb_true_iff, Z.eqb_eq, IH. split.
    + intros [Hpq Hr] [|k] Hk; [simpl; lia|].
      apply (Hr k). simpl in *. lia.
    + intros Hall. split.
      * specialize (Hall 0%nat). simpl in Hall. lia.
      * intros k Hk. apply (Hall (S k)). simpl in *. lia.
Qed.

(** C4. The page-range formatter works on the sorted, duplicate-free list
    of its input pages: it returns the empty string on empty input, the
    decimal string of the page when that list has one element,
    ["start-end"] when each adjacent pair of it differs by exactly 1, and
    otherwise all its pages comma-joined as decimal strings without any
    range compression, as for the pages 1,2,3,7,8,9. *)
Theorem page_range_spec (pages : list Z) :
  let ps := Py.sorted_set pages in
  StronglySorted Z.lt ps /\ NoDup ps /\ (forall x, In x ps <-> In x pages) /\
  (pages = [] -> _page_range pages = "") /\
  (forall p, ps = [p] -> _page_range pages = Py.str p) /\
  ((2 <= List.length ps)%nat ->
   (forall k, (S k < List.length ps)%nat ->
              nth (S k) ps 0 = nth k ps 0 + 1) ->
   _page_range pages = (Py.str (hd 0 ps) ++ "-" ++ Py.str (last ps 0))%string)
  /\
  ((2 <= List.length ps)%nat ->
   ~ (forall k, (S k < List.length ps)%nat ->
                nth (S k) ps 0 = nth k ps 0 + 1) ->
   _page_range pages = Py.join "," (map Py.str ps)) /\
  _page_range [1; 2; 3; 7; 8; 9] = "1,2,3,7,8,9" /\
  _page_range [1; 2; 3; 7; 8; 9] <> "1-3,7-9".
Proof.
  intros ps.
  split; [apply PyFacts.sorted_set_sorted|].
  split; [apply PyFacts.sorted_lt_NoDup, PyFacts.sorted_set_sorted|].
  split; [intros x; apply PyFacts.sorted_set_In|].
  split; [now intros ->|].
  split; [intros p Hp; unfold _page_range; fold ps; now rewrite Hp|].
  split; [|split; [|split; [reflexivity | discriminate]]].
  - intros Hlen Hadj. apply consecutive_spec in Hadj.
    unfold _page_range. fold ps.
    destruct ps as [|p0 [|p1 r]]; simpl in Hlen; try lia.
    now rewrite Hadj.
  - intros Hlen Hadj. rewrite <- consecutive_spec in Hadj.
    apply not_true_is_false in Hadj.
    unfold _page_range. fold ps.
    destruct ps as [|p0 [|p1 r]]; simpl in Hlen; try lia.
    now rewrite Hadj.
Qed.

Lemma page_range_spec_witness :
  _page_range [4; 3; 5; 4] = "3-5" /\ _page_range [9; 1; 2] = "1,2,9".
Proof.
  destruct (page_range_spec [4; 3; 5; 4]) as (_ & _ & _ & _ & _ & Hrun & _).
  destruct (page_range_spec [9; 1; 2]) as (_ & _ & _ & _ & _ & _ & Hsep & _).
  split.
  - apply Hrun.
    + vm_compute. lia.
    + intros [|[|k]] Hk; vm_compute in Hk |- *; try reflexivity; lia.
  - apply Hsep.
    + vm_compute. lia.
    + intros Hall. specialize (Hall 1%nat). vm_compute in Hall.
      assert (H : (2 < 3)%nat) by lia.
      specialize (Hall H). discriminate Hall.
Defined.

(** ** Termination of the splitter *)

Section Splitter.
Context `{tk : Tokenizer}.

Lemma split_loop_terminates (toks : list Z) (T step : Z) :
  0 < T -> 0 < step ->
  forall (fuel : nat) (start : Z) (pieces : list string),
    0 <= start ->
    Z.of_nat (List.length toks) - start <= Z.of_nat fuel ->
    exists out, split_loop fuel toks T step start pieces = Some out.
Proof.
  intros HT Hstep. induction fuel as [|fuel IH]; intros start pieces H0 Hfuel.
  - simpl. destruct (start <? _) eqn:Hlt; [apply Z.ltb_lt in Hlt; lia|eauto].
  - simpl. destruct (start <? _) eqn:Hlt; [|eauto].
    destruct (_ =? _); [eauto|]. apply IH; lia.
Qed.

Lemma split_step_pos (T O : Z) : 0 < T -> 0 < split_step T O.
Proof.
  intros HT. unfold split_step.
  destruct (T - Z.max 0 O <=? 0) eqn:E; [assumption|].
  apply Z.leb_gt in E. exact E.
Qed.

(** With a positive budget the splitter returns. *)
Lemma split_text_terminates (t : string) (T O : Z) :
  0 < T -> exists parts, _split_text_by_tokens t T O = Some parts.
Proof.
  intros HT. unfold _split_text_by_tokens.
  destruct (_ <=? T); [eauto|].
  apply split_loop_terminates; auto using split_step_pos; lia.
Qed.

End Splitter.

(** ** The overlap walk *)

Section Overlap.
Context `{tk : Tokenizer}.
Variable O : Z.

Lemma walk_toks_app (l1 l2 : list Sentence) :
  walk_toks (l1 ++ l2) = walk_toks l1 + walk_toks l2.
Proof.
  unfold walk_toks, Py.sum. induction l1 as [|a l1 IH]; simpl; [reflexivity|].
  rewrite IH. lia.
Qed.

Lemma tok_len_nonneg (s : string) : 0 <= _tok_len s.
Proof. unfold _tok_len. lia. Qed.

Lemma walk_toks_nonneg (l : list Sentence) : 0 <= walk_toks l.
Proof.
  unfold walk_toks, Py.sum. induction l as [|a l IH]; simpl; [lia|].
  pose proof (tok_len_nonneg (text a)). lia.
Qed.

(** The walk stops on a prefix of the reversed chunk and counts it. *)
Lemma overlap_walk_prefix (rs acc : list Sentence) (t : Z) :
  exists taken left,
    rs = taken ++ left /\
    overlap_walk O rs acc t = (acc ++ taken, t + walk_toks taken).
Proof.
  revert acc t. induction rs as [|ss rest IH]; intros acc t.
  - exists [], []. simpl. rewrite app_nil_r. unfold walk_toks. simpl.
    split; [reflexivity|]. f_equal. lia.
  - simpl. destruct (Py.nonempty acc && _) eqn:Hstop.
    + exists [], (ss :: rest). rewrite app_nil_r. unfold walk_toks. simpl.
      split; [reflexivity|]. f_equal. lia.
    + destruct (IH (acc ++ [ss]) (t + _tok_len (text ss)))
        as (taken & left & -> & E).
      exists (ss :: taken), left. split; [reflexivity|].
      rewrite E, <- app_assoc. simpl. f_equal.
      unfold walk_toks, Py.sum. simpl. lia.
Qed.

Lemma taken_whole_snoc (rs : list Sentence) (ss : Sentence) :
  forall acc t,
    taken_whole O rs acc t ->
    Py.nonempty (acc ++ rs)
      && (t + walk_toks rs + _tok_len (text ss) >? O) = false ->
    taken_whole O (rs ++ [ss]) acc t.
Proof.
  unfold taken_whole.
  induction rs as [|r rs IH]; intros acc t Hall Hgo.
  - simpl in *. rewrite app_nil_r in Hgo.
    replace (t + walk_toks []) with t in Hgo by (unfold walk_toks; simpl; lia).
    rewrite Hgo. simpl. f_equal. unfold walk_toks, Py.sum. simpl. lia.
  - simpl in Hall |- *.
    destruct (Py.nonempty acc && _) eqn:Hstop.
    + exfalso. injection Hall as Hacc _.
      apply (f_equal (@List.length _)) in Hacc.
      rewrite length_app in Hacc. simpl in Hacc. lia.
    + assert (E1 : walk_toks (r :: rs) = _tok_len (text r) + walk_toks rs)
        by (unfold walk_toks, Py.sum; reflexivity).
      assert (E2 : walk_toks (r :: rs ++ [ss])
                   = _tok_len (text r) + walk_toks (rs ++ [ss]))
        by (unfold walk_toks, Py.sum; reflexivity).
      rewrite E2.
      replace (acc ++ r :: rs ++ [ss]) with ((acc ++ [r]) ++ rs ++ [ss])
        by (rewrite <- app_assoc; reflexivity).
      rewrite Z.add_assoc. apply IH.
      * rewrite Hall, E1, <- app_assoc. simpl. f_equal. lia.
      * rewrite <- Hgo, E1, <- app_assoc. simpl.
        now rewrite (Z.add_assoc t).
Qed.

(** Walking again over what a walk has taken takes all of it. *)
Lemma overlap_walk_idem (rs : list Sentence) :
  forall acc t,
    taken_whole O acc [] 0 -> t = walk_toks acc ->
    let '(acc', t') := overlap_walk O rs acc t in
    taken_whole O acc' [] 0 /\ t' = walk_toks acc'.
Proof.
  induction rs as [|ss rest IH]; intros acc t Hacc Ht; simpl.
  - auto.
  - destruct (Py.nonempty acc && _) eqn:Hstop; [auto|].
    apply IH.
    + apply taken_whole_snoc; [assumption|].
      simpl. rewrite <- Ht. exact Hstop.
    + rewrite walk_toks_app, Ht. unfold walk_toks at 3, Py.sum. simpl. lia.
Qed.

Lemma walk_toks_rev (l : list Sentence) : walk_toks (rev l) = walk_toks l.
Proof.
  induction l as [|a l IH]; [reflexivity|].
  simpl. rewrite walk_toks_app, IH.
  change (a :: l) with ([a] ++ l). rewrite walk_toks_app. lia.
Qed.

Lemma build_overlap_suffix (c : list Sentence) :
  exists pre, c = pre ++ fst (build_overlap O c) /\
              snd (build_overlap O c) = walk_toks (fst (build_overlap O c)).
Proof.
  unfold build_overlap.
  destruct (overlap_walk_prefix (rev c) [] 0) as (taken & left & Hrev & E).
  rewrite E. simpl. exists (rev left). split.
  - rewrite <- (rev_involutive c), Hrev, rev_app_distr. reflexivity.
  - symmetry. apply walk_toks_rev.
Qed.

(** The overlap of an overlap is that overlap, with the same total. *)
Lemma build_overlap_idem (c ov : list Sentence) (ot : Z) :
  build_overlap O c = (ov, ot) -> build_overlap O ov = (ov, ot).
Proof.
  unfold build_overlap.
  pose proof (overlap_walk_idem (rev c) [] 0) as H.
  destruct (overlap_walk O (rev c) [] 0) as [a t].
  destruct H as [Hwhole Ht]; [reflexivity | reflexivity |].
  intros [= <- <-]. rewrite rev_involutive.
  unfold taken_whole in Hwhole. rewrite Hwhole. simpl.
  now rewrite Ht.
Qed.

(** The last sentence of a non-empty chunk is always taken. *)
Lemma build_overlap_nonempty (c : list Sentence) :
  c <> [] -> fst (build_overlap O c) <> [].
Proof.
  intros Hc. unfold build_overlap.
  destruct (rev c) as [|ss rest] eqn:Hrev.
  - apply (f_equal (@rev _)) in Hrev. rewrite rev_involutive in Hrev.
    contradiction.
  - simpl.
    destruct (overlap_walk_prefix rest [ss] (_tok_len (text ss)))
      as (taken & left & _ & E).
    rewrite E. simpl. destruct (rev taken); discriminate.
Qed.

End Overlap.

(** ** The chunk loop *)

(** [emit_parts] appends one numbered chunk for each piece and touches
    nothing else. *)
Lemma emit_parts_spec (fn : string) (pg : option Z) (parts : list string) :
  forall st,
    let st' := emit_parts fn pg parts st in
    i st' = i st /\ cur st' = cur st /\ cur_toks st' = cur_toks st /\
    chunk_no st' = chunk_no st + Z.of_nat (List.length parts) /\
    chunks st' =
      chunks st ++ number_from fn (chunk_no st) (piece_groups pg parts).
Proof.
  induction parts as [|p parts IH]; intros st; simpl.
  - rewrite app_nil_r. repeat split; lia.
  - destruct (IH {| i := i st; cur := cur st; cur_toks := cur_toks st;
                    chunk_no := chunk_no st + 1;
                    chunks := chunks st ++
                      [finalize fn [mkSentence p pg] (chunk_no st)] |})
      as (Hi & Hc & Ht & Hn & Hch).
    unfold emit_parts in *. simpl in *.
    rewrite Hi, Hc, Ht, Hn, Hch, <- app_assoc.
    repeat split; try reflexivity. lia.
Qed.

Lemma flush_spec (fn : string) (st : State) (gh : Ghost) :
  let st' := flush fn st in
  i st' = i st /\ cur st' = [] /\
  chunk_no st' = chunk_no st + Z.of_nat (List.length (flush_groups st gh)) /\
  chunks st' = chunks st ++ number_from fn (chunk_no st) (flush_groups st gh).
Proof.
  unfold flush, flush_groups.
  destruct (cur st) eqn:Hc; simpl.
  - rewrite app_nil_r. repeat split; auto; lia.
  - repeat split; auto.
Qed.

Lemma number_from_app (fn : string) (a b : list Group) :
  forall k,
    number_from fn k (a ++ b) =
    number_from fn k a ++ number_from fn (k + Z.of_nat (List.length a)) b.
Proof.
  induction a as [|g a IH]; intros k; simpl.
  - now rewrite Z.add_0_r.
  - rewrite IH. do 3 f_equal. lia.
Qed.

Lemma number_from_numbers (fn : string) (gs : list Group) :
  forall k,
    map chunk_number (number_from fn k gs) =
    map (fun j => k + Z.of_nat j) (seq 0 (List.length gs)).
Proof.
  induction gs as [|g gs IH]; intros k; simpl; [reflexivity|].
  rewrite IH, <- seq_shift, map_map. f_equal.
  - lia.
  - apply map_ext. intros j. lia.
Qed.

Lemma number_from_length (fn : string) (gs : list Group) (k : Z) :
  List.length (number_from fn k gs) = List.length gs.
Proof. revert k. induction gs; intros k; simpl; auto. Qed.

Lemma carried_ok_app (a b : list Group) :
  forall prev,
    carried_ok prev (a ++ b) <->
    carried_ok prev a /\ carried_ok (last_sents prev a) b.
Proof.
  induction a as [|g a IH]; intros prev; simpl.
  - tauto.
  - rewrite IH. unfold last_sents. simpl. tauto.
Qed.

Lemma last_sents_app (a b : list Group) (prev : list Sentence) :
  last_sents prev (a ++ b) = last_sents (last_sents prev a) b.
Proof. unfold last_sents. apply fold_left_app. Qed.

Lemma carried_ok_pieces (pg : option Z) (parts : list string) :
  forall prev, carried_ok prev (piece_groups pg parts).
Proof.
  induction parts as [|p parts IH]; intros prev; simpl; [exact I|].
  split; [lia|]. split; [|apply IH].
  exists prev. now rewrite app_nil_r.
Qed.

Lemma fresh_pieces (pg : option Z) (parts : list string) :
  List.concat (map fresh (piece_groups pg parts)) =
  map (fun part => mkSentence part pg) parts.
Proof.
  induction parts as [|p parts IH]; simpl; [reflexivity|]. now rewrite IH.
Qed.

Lemma firstn_succ_nth {A : Type} (l : list A) (k : nat) (x : A) :
  nth_error l k = Some x -> firstn (S k) l = firstn k l ++ [x].
Proof.
  revert k. induction l as [|a l IH]; intros [|k]; simpl; try discriminate.
  - now intros [= ->].
  - intros H. now rewrite <- (IH k H).
Qed.

Section Chunker.
Context `{tk : Tokenizer}.
Variables (file_name : string) (T O : Z) (sentences : list Sentence).

Let body := loop_body file_name T O.
Let loop := fun fuel => chunk_loop fuel file_name T O sentences.
Let gloop := fun fuel => ghost_loop fuel file_name T O sentences.

Lemma loop_body_step (s : Sentence) (st st' : State) (gh : Ghost) :
  body s st = Some st' ->
  step file_name T O s st gh st' (ghost_body T O s st gh).
Proof.
  unfold body, loop_body, ghost_body.
  destruct (Py.truthy (Py.strip (text s))) eqn:Ht; simpl.
  2:{ intros [= <-]. apply step_blank. now apply PyFacts.truthy_false. }
  assert (Hne : Py.strip (text s) <> "")
    by (intros E; rewrite E in Ht; discriminate).
  destruct (_tok_len (Py.strip (text s)) >? T) eqn:Hbig.
  - apply Z.gtb_lt in Hbig.
    destruct (_split_text_by_tokens _ T O) as [parts|] eqn:Hsp; [|discriminate].
    intros [= <-]. now apply step_split.
  - assert (Hfit : _tok_len (Py.strip (text s)) <= T).
    { destruct (Z.gtb_spec (_tok_len (Py.strip (text s))) T);
        [discriminate | lia]. }
    destruct (Py.nonempty (cur st) && _) eqn:Hov.
    + apply andb_true_iff in Hov. destruct Hov as [Hc Hgt].
      apply PyFacts.nonempty_true in Hc. apply Z.gtb_lt in Hgt.
      destruct (next_seed O (cur st) (cur_toks st)) as [ov ot] eqn:Hns.
      intros [= <-].
      pose proof (step_overflow file_name T O s st gh Hne Hfit Hc Hgt) as Hstep.
      rewrite Hns in Hstep. exact Hstep.
    + intros [= <-]. apply step_add; auto.
      apply andb_false_iff in Hov. destruct Hov as [Hc | Hle].
      * left. now apply PyFacts.nonempty_false.
      * right.
        destruct (Z.gtb_spec (cur_toks st + _tok_len (Py.strip (text s))) T);
          [discriminate | lia].
Qed.

(** A property of state and history kept by every iteration holds when
    the loop exits, and the loop exits only at the end of the input. *)
Lemma loop_invariant (P : State -> Ghost -> Prop) :
  (forall s st gh st' gh',
      nth_error sentences (i st) = Some s ->
      P st gh -> step file_name T O s st gh st' gh' -> P st' gh') ->
  forall fuel st gh st',
    P st gh -> loop fuel st = Some st' ->
    P st' (gloop fuel st gh) /\ nth_error sentences (i st') = None.
Proof.
  intros Hstep. unfold loop, gloop.
  induction fuel as [|fuel IH]; intros st gh st' HP; simpl.
  - destruct (nth_error sentences (i st)) eqn:Hs; [discriminate|].
    intros [= <-]. auto.
  - destruct (nth_error sentences (i st)) as [s|] eqn:Hs.
    + destruct (loop_body file_name T O s st) as [st1|] eqn:Hb; [|discriminate].
      intros Hrun. apply IH; [|assumption].
      eapply Hstep; eauto. now apply loop_body_step.
    + intros [= <-]. auto.
Qed.

(** More fuel changes neither the result nor the history. *)
Lemma loop_fuel_mono (fuel fuel' : nat) (st st' : State) (gh : Ghost) :
  (fuel <= fuel')%nat -> loop fuel st = Some st' ->
  loop fuel' st = Some st' /\ gloop fuel' st gh = gloop fuel st gh.
Proof.
  unfold loop, gloop. revert fuel' st gh.
  induction fuel as [|fuel IH]; intros fuel' st gh Hle; simpl.
  - destruct (nth_error sentences (i st)) eqn:Hs; [discriminate|].
    intros [= <-]. destruct fuel'; simpl; rewrite Hs; auto.
  - destruct fuel' as [|fuel']; [lia|]. simpl.
    destruct (nth_error sentences (i st)) as [s|] eqn:Hs; [|auto].
    destruct (loop_body file_name T O s st) as [st1|] eqn:Hb; [|discriminate].
    intros Hrun. apply IH; [lia | assumption].
Qed.

(** *** Termination *)

Lemma phase_bound (st : State) : (phase O st <= 2)%nat.
Proof.
  unfold phase. destruct (cur st); [lia|].
  destruct (build_overlap O _). destruct (_ && _); lia.
Qed.

Lemma step_measure (s : Sentence) (st st' : State) (gh gh' : Ghost) :
  nth_error sentences (i st) = Some s ->
  step file_name T O s st gh st' gh' ->
  (measure O sentences st' < measure O sentences st)%nat.
Proof.
  intros Hs Hstep.
  assert (Hi : (i st < List.length sentences)%nat)
    by (apply nth_error_Some; congruence).
  pose proof (phase_bound st) as Hp.
  unfold measure. destruct Hstep.
  - replace (phase O (advance st)) with (phase O st) by reflexivity.
    simpl. lia.
  - destruct (emit_parts_spec file_name (page s) parts (flush file_name st))
      as (Hi1 & Hc1 & _).
    destruct (flush_spec file_name st gh) as (Hi2 & Hc2 & _).
    assert (E : phase O (advance (emit_parts file_name (page s) parts
                                    (flush file_name st))) = 0%nat)
      by (unfold phase; simpl cur; now rewrite Hc1, Hc2).
    rewrite E. simpl i. rewrite Hi1, Hi2. lia.
  - simpl i. unfold phase at 2.
    destruct (cur st) as [|c0 cs] eqn:Hc; [congruence|]. rewrite <- Hc.
    unfold next_seed. unfold phase. simpl cur. simpl cur_toks.
    destruct (build_overlap O (cur st)) as [ov ot] eqn:Hbo.
    destruct ((List.length ov =? List.length (cur st))%nat
              && (ot =? cur_toks st)).
    + simpl. lia.
    + simpl. destruct ov as [|o1 ov']; [lia|].
      rewrite (build_overlap_idem O _ _ _ Hbo).
      rewrite Nat.eqb_refl, Z.eqb_refl. simpl. lia.
  - pose proof (phase_bound
      {| i := S (i st); cur := cur st ++ [s];
         cur_toks := cur_toks st + _tok_len (Py.strip (text s));
         chunk_no := chunk_no st; chunks := chunks st |}).
    simpl i. lia.
Qed.

Lemma body_total (s : Sentence) (st : State) :
  0 < T -> exists st', body s st = Some st'.
Proof.
  intros HT. unfold body, loop_body.
  destruct (negb _); [eauto|].
  destruct (_ >? T); [|destruct (_ && _); [destruct (next_seed _ _ _)|]; eauto].
  destruct (split_text_terminates (Py.strip (text s)) T O HT) as (parts & ->).
  eauto.
Qed.

(** With a positive budget the loop exits within [measure] iterations. *)
Lemma chunk_loop_terminates :
  0 < T ->
  forall fuel st,
    (measure O sentences st <= fuel)%nat -> exists st', loop fuel st = Some st'.
Proof.
  intros HT. unfold loop.
  induction fuel as [|fuel IH]; intros st Hm; simpl.
  - destruct (nth_error sentences (i st)) as [s|] eqn:Hs; [|eauto].
    pose proof (step_measure s st) as Hdec.
    destruct (body_total s st HT) as (st1 & Hb).
    specialize (Hdec st1 init_ghost _ Hs (loop_body_step _ _ _ _ Hb)). lia.
  - destruct (nth_error sentences (i st)) as [s|] eqn:Hs; [|eauto].
    destruct (body_total s st HT) as (st1 & Hb).
    unfold body in Hb. rewrite Hb. apply IH.
    pose proof (step_measure s st st1 init_ghost _ Hs
                  (loop_body_step _ _ _ _ Hb)). lia.
Qed.

(** *** Numbering *)

Lemma numbered_step (s : Sentence) (st st' : State) (gh gh' : Ghost) :
  numbered file_name st gh -> step file_name T O s st gh st' gh' ->
  numbered file_name st' gh'.
Proof.
  intros [Hch Hno] Hstep.
  destruct Hstep; unfold numbered, advance; cbn [chunks chunk_no groups].
  - auto.
  - destruct (emit_parts_spec file_name (page s) parts (flush file_name st))
      as (_ & _ & _ & Hn1 & Hc1).
    destruct (flush_spec file_name st gh) as (_ & _ & Hn2 & Hc2).
    rewrite Hc1, Hn1, Hc2, Hn2, Hch, Hno.
    rewrite !number_from_app, !length_app, <- app_assoc.
    unfold piece_groups at 3. rewrite length_map.
    split; [reflexivity | lia].
  - rewrite Hch, Hno, number_from_app, length_app.
    cbn [number_from g_sents List.length]. split; [reflexivity | lia].
  - auto.
Qed.

(** *** Carried-over sentences and coverage *)

Lemma next_seed_suffix (c : list Sentence) (t : Z) :
  exists pre, c = pre ++ fst (next_seed O c t).
Proof.
  unfold next_seed.
  destruct (build_overlap_suffix O c) as (pre & Hc & _).
  destruct (build_overlap O c) as [ov ot]. simpl in Hc.
  destruct (_ && _); simpl.
  - exists c. now rewrite app_nil_r.
  - now exists pre.
Qed.

Lemma flush_groups_fresh (st : State) (gh : Ghost) :
  List.concat (map fresh (flush_groups st gh)) = skipn (seed gh) (cur st).
Proof.
  unfold flush_groups. destruct (cur st) eqn:Hc; simpl.
  - now destruct (seed gh).
  - unfold fresh. simpl. now rewrite app_nil_r.
Qed.

Lemma flush_groups_carried (st : State) (gh : Ghost) :
  covered T O sentences st gh ->
  carried_ok [] (groups gh ++ flush_groups st gh).
Proof.
  intros (Hseed & Hok & Hpre & _).
  apply carried_ok_app. split; [assumption|].
  unfold flush_groups. destruct (Py.nonempty (cur st)); simpl; auto.
Qed.

Lemma covered_step (s : Sentence) (st st' : State) (gh gh' : Ghost) :
  nth_error sentences (i st) = Some s ->
  covered T O sentences st gh -> step file_name T O s st gh st' gh' ->
  covered T O sentences st' gh'.
Proof.
  intros Hs Hcov Hstep.
  pose proof (flush_groups_carried st gh Hcov) as Hflush.
  destruct Hcov as (Hseed & Hok & Hpre & Hcat).
  assert (Hblank : Py.strip (text s) = "" -> expand T O s = []).
  { intros E. unfold expand. now rewrite E. }
  assert (Hkeep : Py.strip (text s) <> "" ->
                  _tok_len (Py.strip (text s)) <= T -> expand T O s = [s]).
  { intros Hne Hfit. unfold expand.
    destruct (Py.strip (text s)) eqn:E; [congruence|]. simpl.
    destruct (Z.gtb_spec (_tok_len (String a s0)) T); [lia | reflexivity]. }
  destruct Hstep; unfold covered, advance; cbn [i cur seed groups].
  - rewrite (firstn_succ_nth _ _ _ Hs), flat_map_app. simpl.
    rewrite Hblank, !app_nil_r by assumption. auto.
  - destruct (emit_parts_spec file_name (page s) parts (flush file_name st))
      as (Hi1 & Hc1 & _).
    destruct (flush_spec file_name st gh) as (Hi2 & Hc2 & _).
    rewrite Hi1, Hc1, Hi2, Hc2.
    split; [simpl; lia|]. split; [|split].
    + rewrite app_assoc. apply carried_ok_app. split; [assumption|].
      apply carried_ok_pieces.
    + eexists. simpl. now rewrite app_nil_r.
    + rewrite (firstn_succ_nth _ _ _ Hs), flat_map_app. simpl.
      rewrite !map_app, !concat_app, flush_groups_fresh, fresh_pieces.
      rewrite !app_nil_r, app_assoc, Hcat. f_equal.
      unfold expand.
      destruct (Py.strip (text s)) eqn:E; [congruence|]. simpl.
      destruct (Z.gtb_spec (_tok_len (String a s0)) T); [|lia].
      now rewrite H1.
  - split; [lia|]. split; [|split].
    + apply carried_ok_app. split; [assumption|]. simpl.
      split; [assumption|]. split; [assumption | exact I].
    + rewrite last_sents_app. unfold last_sents at 1. simpl.
      rewrite firstn_all. apply next_seed_suffix.
    + rewrite skipn_all, app_nil_r, map_app, concat_app. simpl.
      unfold fresh at 2. simpl. now rewrite app_nil_r.
  - split; [rewrite length_app; lia|]. split; [assumption|]. split.
    + rewrite firstn_app.
      replace (seed gh - List.length (cur st))%nat with 0%nat by lia.
      simpl. now rewrite app_nil_r.
    + rewrite (firstn_succ_nth _ _ _ Hs), flat_map_app. simpl.
      rewrite Hkeep, skipn_app by assumption.
      replace (seed gh - List.length (cur st))%nat with 0%nat by lia.
      simpl. now rewrite app_assoc, Hcat.
Qed.

(** *** Token budget *)

Lemma trimmed_toks_app (a b : list Sentence) :
  trimmed_toks (a ++ b) = trimmed_toks a + trimmed_toks b.
Proof.
  unfold trimmed_toks, Py.sum. induction a as [|x a IH]; simpl; [reflexivity|].
  rewrite IH. lia.
Qed.

Lemma trimmed_toks_nonneg (a : list Sentence) : 0 <= trimmed_toks a.
Proof.
  unfold trimmed_toks, Py.sum. induction a as [|x a IH]; simpl; [lia|].
  pose proof (tok_len_nonneg (Py.strip (text x))). lia.
Qed.

Lemma trimmed_le_walk (a : list Sentence) :
  (forall x, In x a -> _tok_len (Py.strip (text x)) <= _tok_len (text x)) ->
  trimmed_toks a <= walk_toks a.
Proof.
  unfold trimmed_toks, walk_toks, Py.sum.
  induction a as [|x a IH]; intros H; simpl; [lia|].
  specialize (IH (fun y Hy => H y (or_intror Hy))).
  specialize (H x (or_introl eq_refl)). lia.
Qed.

Lemma next_seed_toks (c : list Sentence) (t : Z) :
  snd (next_seed O c t) = walk_toks (fst (next_seed O c t)).
Proof.
  unfold next_seed.
  destruct (build_overlap_suffix O c) as (_ & _ & Ht).
  destruct (build_overlap O c) as [ov ot]. simpl in Ht.
  destruct (_ && _); simpl; [reflexivity | assumption].
Qed.

Hypothesis trim_no_gain :
  forall x, In x sentences ->
            _tok_len (Py.strip (text x)) <= _tok_len (text x).

Lemma within_budget_step (s : Sentence) (st st' : State) (gh gh' : Ghost) :
  0 < T ->
  nth_error sentences (i st) = Some s ->
  within_budget T sentences st gh -> step file_name T O s st gh st' gh' ->
  within_budget T sentences st' gh'.
Proof.
  intros HT Hs (Hacc & Hfit & Hin & Hgs) Hstep.
  destruct Hstep; unfold within_budget, advance;
    cbn [cur cur_toks groups].
  - auto.
  - destruct (emit_parts_spec file_name (page s) parts (flush file_name st))
      as (_ & Hc1 & Ht1 & _).
    destruct (flush_spec file_name st gh) as (_ & Hc2 & _).
    rewrite Hc1, Ht1, Hc2.
    assert (Hz : 0 <= cur_toks (flush file_name st)).
    { unfold flush. destruct (cur st) eqn:Hc; simpl; [|lia]. exact Hacc. }
    split; [exact Hz|]. split; [unfold trimmed_toks; simpl; lia|].
    split; [intros x []|].
    intros g Hg Hsp. rewrite !in_app_iff in Hg.
    destruct Hg as [Hg | [Hg | Hg]]; [now apply Hgs | |].
    + unfold flush_groups in Hg.
      destruct (Py.nonempty (cur st)); [|destruct Hg].
      destruct Hg as [<- | []]. exact Hfit.
    + unfold piece_groups in Hg. apply in_map_iff in Hg.
      destruct Hg as (p & <- & _). discriminate Hsp.
  - destruct (next_seed_suffix (cur st) (cur_toks st)) as (pre & Hpre).
    pose proof (next_seed_toks (cur st) (cur_toks st)) as Htoks.
    set (ov := fst (next_seed O (cur st) (cur_toks st))) in *.
    assert (Hov : forall x, In x ov -> In x sentences).
    { intros x Hx. apply Hin. rewrite Hpre. apply in_or_app. now right. }
    assert (Hle : trimmed_toks ov <= trimmed_toks (cur st)).
    { rewrite Hpre, trimmed_toks_app.
      pose proof (trimmed_toks_nonneg pre). lia. }
    split; [|split; [lia|split; [exact Hov|]]].
    + rewrite Htoks. apply trimmed_le_walk. intros x Hx. auto.
    + intros g Hg Hsp. apply in_app_iff in Hg.
      destruct Hg as [Hg | [<- | []]]; [now apply Hgs | exact Hfit].
  - rewrite trimmed_toks_app.
    replace (trimmed_toks [s]) with (_tok_len (Py.strip (text s)))
      by (unfold trimmed_toks, Py.sum; simpl; lia).
    split; [lia|]. split; [|split; [|exact Hgs]].
    + destruct H1 as [Hempty | Hsum]; [|lia].
      rewrite Hempty. unfold trimmed_toks at 1. simpl. lia.
    + intros x Hx. apply in_app_iff in Hx.
      destruct Hx as [Hx | [<- | []]]; [now apply Hin|].
      eapply nth_error_In; eauto.
Qed.

End Chunker.

(** ** Results on whole runs *)

Section Runs.
Context `{tk : Tokenizer}.
Variables (sentences : list Sentence) (file_name : string) (T O : Z).

Let fuel := (3 * List.length sentences)%nat.
Let final_ghost :=
  ghost_loop fuel file_name T O sentences init_state init_ghost.

(** Whatever the loop keeps from the start holds of the returned chunks'
    groups. *)
Lemma run_invariant (P : State -> Ghost -> Prop) (st : State) :
  P init_state init_ghost ->
  (forall s st gh st' gh',
      nth_error sentences (i st) = Some s ->
      P st gh -> step file_name T O s st gh st' gh' -> P st' gh') ->
  chunk_loop fuel file_name T O sentences init_state = Some st ->
  P st final_ghost /\
  chunk_groups sentences file_name T O =
    groups final_ghost ++ flush_groups st final_ghost /\
  (List.length sentences <= i st)%nat.
Proof.
  intros H0 Hstep Hrun.
  destruct (loop_invariant file_name T O sentences P Hstep fuel
              init_state init_ghost st H0 Hrun) as [HP Hend].
  split; [exact HP|]. split.
  - unfold chunk_groups. fold fuel. rewrite Hrun. reflexivity.
  - now apply nth_error_None.
Qed.

(** The returned chunks are the finalized groups, numbered from 1. *)
Lemma chunk_sentences_groups (chunks : list Chunk) :
  chunk_sentences sentences file_name T O = Some chunks ->
  chunks = number_from file_name 1 (chunk_groups sentences file_name T O).
Proof.
  unfold chunk_sentences, chunk_sentences_fuel. fold fuel.
  destruct (chunk_loop fuel file_name T O sentences init_state)
    as [st|] eqn:Hrun; [|discriminate].
  simpl. intros [= <-].
  destruct (run_invariant (numbered file_name) st) as ([Hch Hno] & -> & _).
  - split; reflexivity.
  - intros s st0 gh st' gh' _. apply numbered_step.
  - exact Hrun.
  - unfold finish, flush_groups. rewrite number_from_app.
    destruct (Py.nonempty (cur st)); simpl.
    + now rewrite Hch, Hno.
    + now rewrite app_nil_r.
Qed.

(** With a positive budget [chunk_sentences] returns. *)
Lemma chunk_sentences_returns :
  0 < T ->
  exists st,
    chunk_loop fuel file_name T O sentences init_state = Some st /\
    chunk_sentences sentences file_name T O = Some (finish file_name st).
Proof.
  intros HT.
  destruct (chunk_loop_terminates file_name T O sentences HT fuel init_state)
    as (st & Hrun).
  - unfold measure, phase, fuel. simpl. lia.
  - exists st. split; [exact Hrun|].
    unfold chunk_sentences, chunk_sentences_fuel. fold fuel.
    now rewrite Hrun.
Qed.

End Runs.

(** C7. The chunk numbers of the returned list are 1, 2, ..., N in
    emission order, for every input on which [chunk_sentences] returns;
    it returns whenever the target budget is positive. *)
Theorem chunk_numbers_sequential `{tk : Tokenizer}
    (sentences : list Sentence) (file_name : string) (T O : Z) :
  (0 < T -> exists chunks,
      chunk_sentences sentences file_name T O = Some chunks) /\
  (forall chunks,
      chunk_sentences sentences file_name T O = Some chunks ->
      map chunk_number chunks =
      map Z.of_nat (seq 1 (List.length chunks))).
Proof.
  split.
  - intros HT.
    destruct (chunk_sentences_returns sentences file_name T O HT)
      as (st & _ & E).
    eauto.
  - intros chunks Hrun.
    apply chunk_sentences_groups in Hrun. subst chunks.
    rewrite number_from_numbers, number_from_length, <- seq_shift, map_map.
    apply map_ext. intros j. lia.
Qed.

Lemma chunk_numbers_sequential_witness :
  exists chunks,
    @chunk_sentences char_tokenizer
      [mkSentence "1.2.3" None; mkSentence "4.5" None;
       mkSentence "6.7.8.9.0" None] "doc" 10 5 = Some chunks /\
    map chunk_number chunks = [1; 2; 3].
Proof.
  destruct (@chunk_numbers_sequential char_tokenizer
              [mkSentence "1.2.3" None; mkSentence "4.5" None;
               mkSentence "6.7.8.9.0" None] "doc" 10 5) as [Hret Hnum].
  destruct Hret as (chunks & Hrun); [lia|].
  exists chunks. split; [exact Hrun|].
  rewrite (Hnum chunks Hrun).
  vm_compute in Hrun. injection Hrun as <-. reflexivity.
Defined.

(** C8. On an empty sentence sequence [chunk_sentences] returns the empty
    chunk sequence, as an ordinary result. *)
Theorem chunk_sentences_empty `{tk : Tokenizer}
    (file_name : string) (T O : Z) :
  chunk_sentences [] file_name T O = Some [].
Proof. reflexivity. Qed.

(** ** Single iterations *)

Section Iterations.
Context `{tk : Tokenizer}.
Variables (file_name : string) (T O : Z).

(** The iteration that appends [s] and advances. *)
Lemma loop_body_add (s : Sentence) (st : State) :
  Py.strip (text s) <> "" ->
  _tok_len (Py.strip (text s)) <= T ->
  cur st = [] \/ cur_toks st + _tok_len (Py.strip (text s)) <= T ->
  loop_body file_name T O s st =
  Some {| i := S (i st); cur := cur st ++ [s];
          cur_toks := cur_toks st + _tok_len (Py.strip (text s));
          chunk_no := chunk_no st; chunks := chunks st |}.
Proof.
  intros Hne Hfit Hroom. unfold loop_body.
  destruct (Py.strip (text s)) as [|c r] eqn:E; [congruence|]. simpl.
  destruct (Z.gtb_spec (_tok_len (String c r)) T); [lia|].
  destruct Hroom as [-> | Hroom]; [reflexivity|].
  destruct (Z.gtb_spec (cur_toks st + _tok_len (String c r)) T); [lia|].
  now rewrite andb_false_r.
Qed.

(** The iteration that finalizes the accumulator and retries [s]. *)
Lemma loop_body_overflow (s : Sentence) (st : State) :
  Py.strip (text s) <> "" ->
  _tok_len (Py.strip (text s)) <= T ->
  cur st <> [] ->
  T < cur_toks st + _tok_len (Py.strip (text s)) ->
  loop_body file_name T O s st =
  Some {| i := i st;
          cur := fst (next_seed O (cur st) (cur_toks st));
          cur_toks := snd (next_seed O (cur st) (cur_toks st));
          chunk_no := chunk_no st + 1;
          chunks := chunks st ++ [finalize file_name (cur st) (chunk_no st)] |}.
Proof.
  intros Hne Hfit Hc Hover. unfold loop_body.
  destruct (Py.strip (text s)) as [|c r] eqn:E; [congruence|]. simpl.
  destruct (Z.gtb_spec (_tok_len (String c r)) T); [lia|].
  destruct (cur st) as [|c0 cs] eqn:Hcur; [congruence|]. simpl.
  destruct (Z.gtb_spec (cur_toks st + _tok_len (String c r)) T); [|lia].
  now destruct (next_seed O (c0 :: cs) (cur_toks st)).
Qed.

Lemma chunk_loop_next (sentences : list Sentence) (fuel : nat)
    (s : Sentence) (st st' : State) :
  nth_error sentences (i st) = Some s ->
  loop_body file_name T O s st = Some st' ->
  chunk_loop (S fuel) file_name T O sentences st =
  chunk_loop fuel file_name T O sentences st'.
Proof. intros Hs Hb. simpl. now rewrite Hs, Hb. Qed.

Lemma chunk_loop_exit (sentences : list Sentence) (fuel : nat) (st : State) :
  nth_error sentences (i st) = None ->
  chunk_loop fuel file_name T O sentences st = Some st.
Proof. intros Hs. destruct fuel; simpl; now rewrite Hs. Qed.

(** The degeneracy guard: an overlap with the sentence count and the token
    total of the finalized chunk is dropped. *)
Lemma next_seed_degenerate (prev_cur : list Sentence) (prev_toks : Z) :
  List.length (fst (build_overlap O prev_cur)) = List.length prev_cur ->
  snd (build_overlap O prev_cur) = prev_toks ->
  next_seed O prev_cur prev_toks = ([], 0).
Proof.
  unfold next_seed. destruct (build_overlap O prev_cur) as [ov ot]. simpl.
  intros -> ->. now rewrite Nat.eqb_refl, Z.eqb_refl.
Qed.

(** After a dropped overlap the retried sentence is appended and the input
    pointer advances. *)
Lemma degenerate_overlap_progress (s : Sentence) (st : State) :
  Py.strip (text s) <> "" ->
  _tok_len (Py.strip (text s)) <= T ->
  cur st <> [] ->
  T < cur_toks st + _tok_len (Py.strip (text s)) ->
  List.length (fst (build_overlap O (cur st))) = List.length (cur st) ->
  snd (build_overlap O (cur st)) = cur_toks st ->
  exists st1 st2,
    loop_body file_name T O s st = Some st1 /\
    i st1 = i st /\ cur st1 = [] /\
    loop_body file_name T O s st1 = Some st2 /\
    i st2 = S (i st) /\ cur st2 = [s].
Proof.
  intros Hne Hfit Hc Hover Hlen Htoks.
  rewrite (loop_body_overflow s st Hne Hfit Hc Hover).
  rewrite (next_seed_degenerate _ _ Hlen Htoks). simpl.
  eexists. eexists. split; [reflexivity|]. cbn [i cur].
  split; [reflexivity|]. split; [reflexivity|].
  rewrite loop_body_add by (auto; now left). cbn [i cur].
  auto.
Qed.

End Iterations.

(** C2. For a positive target budget and any overlap budget (also one that
    is not below the target), [chunk_sentences] returns after at most three
    loop iterations for each input sentence: the loop, which spends one
    unit of fuel on each iteration, exits on [3 * len(sentences)] units,
    and more fuel gives the same chunks.  When the computed overlap has the
    sentence count and the token total of the chunk just finalized, it is
    dropped, the next accumulator starts empty, and the retried sentence is
    appended with the input pointer advanced. *)
Theorem chunk_sentences_terminates `{tk : Tokenizer}
    (sentences : list Sentence) (file_name : string) (T O : Z) :
  0 < T -> 0 <= O ->
  (exists chunks,
      chunk_sentences_fuel (3 * List.length sentences) sentences file_name T O
        = Some chunks /\
      forall fuel, (3 * List.length sentences <= fuel)%nat ->
        chunk_sentences_fuel fuel sentences file_name T O = Some chunks) /\
  (forall prev_cur prev_toks,
      List.length (fst (build_overlap O prev_cur)) = List.length prev_cur ->
      snd (build_overlap O prev_cur) = prev_toks ->
      next_seed O prev_cur prev_toks = ([], 0)) /\
  (forall s st,
      Py.strip (text s) <> "" ->
      _tok_len (Py.strip (text s)) <= T ->
      cur st <> [] ->
      T < cur_toks st + _tok_len (Py.strip (text s)) ->
      List.length (fst (build_overlap O (cur st))) = List.length (cur st) ->
      snd (build_overlap O (cur st)) = cur_toks st ->
      exists st1 st2,
        loop_body file_name T O s st = Some st1 /\
        i st1 = i st /\ cur st1 = [] /\
        loop_body file_name T O s st1 = Some st2 /\
        i st2 = S (i st) /\ cur st2 = [s]).
Proof.
  intros HT HO. split; [|split].
  - destruct (chunk_sentences_returns sentences file_name T O HT)
      as (st & Hrun & _).
    exists (finish file_name st). unfold chunk_sentences_fuel.
    split; [now rewrite Hrun|].
    intros fuel Hfuel.
    destruct (loop_fuel_mono file_name T O sentences _ fuel init_state st
                init_ghost Hfuel Hrun) as [-> _].
    reflexivity.
  - apply next_seed_degenerate.
  - apply degenerate_overlap_progress.
Qed.

Lemma chunk_sentences_terminates_witness :
  exists chunks,
    @chunk_sentences_fuel char_tokenizer 6
      [mkSentence "1.2.3" None; mkSentence "4.5.6" None] "doc" 5 5
    = Some chunks /\
    map raw_text chunks = ["1.2.3"; "4.5.6"].
Proof.
  destruct (@chunk_sentences_terminates char_tokenizer
              [mkSentence "1.2.3" None; mkSentence "4.5.6" None] "doc" 5 5)
    as ((chunks & Hrun & _) & _); [lia | lia |].
  exists chunks. split; [exact Hrun|].
  vm_compute in Hrun. injection Hrun as <-. reflexivity.
Defined.

(** C9. For the sentences "A.", "B.", "C." without page, the file name
    "doc" and a target budget that the three token counts together do not
    exceed, [chunk_sentences] returns exactly one chunk: number 1, page
    label "1", raw text "A. B. C." and embedded text "doc", two line
    feeds, "A. B. C.". *)
Theorem chunk_sentences_abc `{tk : Tokenizer} (T O : Z) :
  _tok_len "A." + _tok_len "B." + _tok_len "C." <= T ->
  chunk_sentences
    [mkSentence "A." None; mkSentence "B." None; mkSentence "C." None]
    "doc" T O
  = Some [ {| chunk_number := 1;
              page_number := "1";
              embedded_text := ("doc" ++ Py.nl ++ Py.nl ++ "A. B. C.")%string;
              raw_text := "A. B. C." |} ].
Proof.
  intros Hfit.
  pose proof (tok_len_nonneg "A.") as Ha.
  pose proof (tok_len_nonneg "B.") as Hb.
  pose proof (tok_len_nonneg "C.") as Hc.
  unfold chunk_sentences, chunk_sentences_fuel.
  set (ss := [mkSentence "A." None; mkSentence "B." None;
              mkSentence "C." None]).
  change (3 * List.length ss)%nat with 9%nat.
  assert (Hadd : forall s st,
             In s ss -> 0 <= cur_toks st ->
             cur_toks st + _tok_len (text s) <= T ->
             loop_body "doc" T O s st =
             Some {| i := S (i st); cur := cur st ++ [s];
                     cur_toks := cur_toks st + _tok_len (text s);
                     chunk_no := chunk_no st; chunks := chunks st |}).
  { intros s st Hs Hpos Hroom.
    assert (Hstrip : Py.strip (text s) = text s /\ text s <> "")
      by (destruct Hs as [<- | [<- | [<- | []]]]; split;
          (reflexivity || discriminate)).
    destruct Hstrip as [Hstrip Hne].
    pose proof (tok_len_nonneg (text s)).
    rewrite <- Hstrip at 1.
    apply loop_body_add; rewrite Hstrip; [exact Hne | lia | right; lia]. }
  erewrite (chunk_loop_next "doc" T O ss _ (mkSentence "A." None));
    [| reflexivity | apply Hadd; [simpl; auto | simpl; lia | simpl; lia]].
  cbn [i cur cur_toks chunk_no chunks init_state text app].
  erewrite (chunk_loop_next "doc" T O ss _ (mkSentence "B." None));
    [| reflexivity | apply Hadd; [simpl; auto | simpl; lia | simpl; lia]].
  cbn [i cur cur_toks chunk_no chunks text app].
  erewrite (chunk_loop_next "doc" T O ss _ (mkSentence "C." None));
    [| reflexivity | apply Hadd; [simpl; auto | simpl; lia | simpl; lia]].
  cbn [i cur cur_toks chunk_no chunks text app].
  rewrite chunk_loop_exit by reflexivity.
  reflexivity.
Qed.

Lemma chunk_sentences_abc_witness :
  @chunk_sentences char_tokenizer
    [mkSentence "A." None; mkSentence "B." None; mkSentence "C." None]
    "doc" 2000 200
  = Some [ {| chunk_number := 1;
              page_number := "1";
              embedded_text := ("doc" ++ Py.nl ++ Py.nl ++ "A. B. C.")%string;
              raw_text := "A. B. C." |} ].
Proof.
  apply (@chunk_sentences_abc char_tokenizer 2000 200).
  vm_compute. discriminate.
Defined.

(** ** Budget, coverage and overlap-only chunks *)

Lemma number_from_raw (fn : string) (gs : list Group) :
  forall k,
    Forall2
      (fun c g =>
         raw_text c = Py.strip (Py.join " " (map text (g_sents g))) /\
         embedded_text c = (fn ++ Py.nl ++ Py.nl ++ raw_text c)%string)
      (number_from fn k gs) gs.
Proof.
  induction gs as [|g gs IH]; intros k; simpl; constructor; auto.
Qed.

Lemma expand_kept `{tk : Tokenizer} (T O : Z) (l : list Sentence) :
  (forall s, In s l ->
     Py.strip (text s) <> "" /\ _tok_len (Py.strip (text s)) <= T) ->
  flat_map (expand T O) l = l.
Proof.
  induction l as [|s l IH]; intros H; simpl; [reflexivity|].
  rewrite IH by (intros x Hx; apply H; now right).
  destruct (H s (or_introl eq_refl)) as [Hne Hfit].
  unfold expand. destruct (Py.strip (text s)) eqn:E; [congruence|]. simpl.
  destruct (Z.gtb_spec (_tok_len (String a s0)) T); [lia | reflexivity].
Qed.

(** C1, as the code has it. For a positive target budget and sentence
    texts that do not gain tokens by being trimmed (texts without
    surrounding whitespace in particular), every chunk that is not a piece
    of the oversized-sentence splitter is finalized from sentences whose
    trimmed texts have at most [T] tokens in total.  The bound is on the
    sum over the sentences, not on the token length of the joined raw
    text. *)
Theorem chunk_budget `{tk : Tokenizer}
    (sentences : list Sentence) (file_name : string) (T O : Z) :
  0 < T -> 0 <= O ->
  (forall s, In s sentences ->
     _tok_len (Py.strip (text s)) <= _tok_len (text s)) ->
  exists chunks,
    chunk_sentences sentences file_name T O = Some chunks /\
    Forall2
      (fun c g =>
         raw_text c = Py.strip (Py.join " " (map text (g_sents g))) /\
         embedded_text c = (file_name ++ Py.nl ++ Py.nl ++ raw_text c)%string)
      chunks (chunk_groups sentences file_name T O) /\
    forall g, In g (chunk_groups sentences file_name T O) ->
              g_split g = false -> trimmed_toks (g_sents g) <= T.
Proof.
  intros HT HO Htrim.
  destruct (chunk_sentences_returns sentences file_name T O HT)
    as (st & Hrun & Hret).
  exists (finish file_name st). split; [exact Hret|]. split.
  - rewrite (chunk_sentences_groups _ _ _ _ _ Hret). apply number_from_raw.
  - destruct (run_invariant sentences file_name T O
                (within_budget T sentences) st)
      as ((_ & Hfit & _ & Hgs) & -> & _).
    + repeat split; try (unfold trimmed_toks; simpl; lia);
        intros ? [].
    + intros s st0 gh st' gh' Hs. now apply within_budget_step.
    + exact Hrun.
    + intros g Hg Hsp. apply in_app_iff in Hg.
      destruct Hg as [Hg | Hg]; [now apply Hgs|].
      unfold flush_groups in Hg.
      destruct (Py.nonempty (cur st)); [|destruct Hg].
      destruct Hg as [<- | []]. exact Hfit.
Qed.

Lemma chunk_budget_witness :
  exists chunks,
    @chunk_sentences char_tokenizer
      [mkSentence "1." None; mkSentence "2." None; mkSentence "3.4" None]
      "doc" 4 0 = Some chunks /\
    map raw_text chunks = ["1. 2."; "2."; "3.4"].
Proof.
  destruct (@chunk_budget char_tokenizer
              [mkSentence "1." None; mkSentence "2." None;
               mkSentence "3.4" None] "doc" 4 0)
    as (chunks & Hrun & _); [lia | lia | |].
  - intros s [<- | [<- | [<- | []]]]; vm_compute; discriminate.
  - exists chunks. split; [exact Hrun|].
    vm_compute in Hrun. injection Hrun as <-. reflexivity.
Defined.

(** C1, as stated, fails: with one token for each character (the counts
    below are also those of a byte-pair encoding that keeps digits, dots
    and the joining space apart), the sentences "1." and "2." have two
    tokens each and fit the budget 4 together, and the single chunk built
    from them, which is no piece of the splitter, has the raw text
    "1. 2." of five tokens. *)
Lemma chunk_budget_raw_text_counterexample :
  let ss := [mkSentence "1." None; mkSentence "2." None] in
  exists c,
    @chunk_sentences char_tokenizer ss "doc" 4 0 = Some [c] /\
    @chunk_groups char_tokenizer ss "doc" 4 0 = [mkGroup ss 0 false] /\
    raw_text c = "1. 2." /\
    ~ (@_tok_len char_tokenizer (raw_text c) <= 4).
Proof.
  eexists. split; [vm_compute; reflexivity|].
  split; [vm_compute; reflexivity|]. split; [reflexivity|].
  vm_compute. intros H. apply H. reflexivity.
Qed.

(** Why the budget theorem asks that trimming gains no tokens: with the
    merged token " ab", the sentence " ab" is accumulated with the two
    tokens of "ab" and recounted as one token when it is carried over, so
    that "c" is appended to it under [T = 2] although the trimmed texts
    have three tokens together. *)
Lemma chunk_budget_needs_trim :
  let ss := [mkSentence " ab" None; mkSentence "c" None] in
  option_map (map raw_text)
    (@chunk_sentences merge_tokenizer ss "doc" 2 0) = Some ["ab"; "ab c"] /\
  map g_split (@chunk_groups merge_tokenizer ss "doc" 2 0) = [false; false] /\
  @trimmed_toks merge_tokenizer ss = 3.
Proof. repeat split; vm_compute; reflexivity. Qed.

(** C6, as the code has it. For a positive target budget, every chunk's
    raw text is the trimmed, space-joined text of the sentences of its
    group; the leading [g_seed] sentences of a group repeat the end of the
    group before it; and the groups without those carried-over sentences,
    concatenated in chunk order, are the input sentences with the blank
    ones left out and every oversized one replaced by the pieces of the
    splitter.  When no input sentence is blank or oversized this is the
    input sequence itself. *)
Theorem chunk_coverage `{tk : Tokenizer}
    (sentences : list Sentence) (file_name : string) (T O : Z) :
  0 < T ->
  exists chunks,
    chunk_sentences sentences file_name T O = Some chunks /\
    Forall2
      (fun c g =>
         raw_text c = Py.strip (Py.join " " (map text (g_sents g))) /\
         embedded_text c = (file_name ++ Py.nl ++ Py.nl ++ raw_text c)%string)
      chunks (chunk_groups sentences file_name T O) /\
    carried_ok [] (chunk_groups sentences file_name T O) /\
    List.concat (map fresh (chunk_groups sentences file_name T O)) =
      flat_map (expand T O) sentences /\
    ((forall s, In s sentences ->
        Py.strip (text s) <> "" /\ _tok_len (Py.strip (text s)) <= T) ->
     List.concat (map fresh (chunk_groups sentences file_name T O)) =
       sentences).
Proof.
  intros HT.
  destruct (chunk_sentences_returns sentences file_name T O HT)
    as (st & Hrun & Hret).
  exists (finish file_name st). split; [exact Hret|]. split.
  { rewrite (chunk_sentences_groups _ _ _ _ _ Hret). apply number_from_raw. }
  destruct (run_invariant sentences file_name T O
              (covered T O sentences) st) as (Hcov & -> & Hend).
  - unfold covered. simpl. repeat split; auto. now exists [].
  - intros s st0 gh st' gh'. apply covered_step.
  - exact Hrun.
  - pose proof (flush_groups_carried T O sentences st _ Hcov) as Hok.
    destruct Hcov as (_ & _ & _ & Hcat).
    rewrite firstn_all2 in Hcat by exact Hend.
    assert (E : List.concat (map fresh (groups
                  (ghost_loop (3 * List.length sentences) file_name T O
                     sentences init_state init_ghost) ++
                flush_groups st
                  (ghost_loop (3 * List.length sentences) file_name T O
                     sentences init_state init_ghost)))
                = flat_map (expand T O) sentences).
    { rewrite map_app, concat_app, flush_groups_fresh. exact Hcat. }
    split; [exact Hok|]. split; [exact E|].
    intros Hall. rewrite E. now apply expand_kept.
Qed.

Lemma chunk_coverage_witness :
  let ss := [mkSentence "1.2.3" None; mkSentence "4.5" None;
             mkSentence "6.7.8.9.0" None] in
  exists chunks,
    @chunk_sentences char_tokenizer ss "doc" 10 5 = Some chunks /\
    List.concat (map fresh (@chunk_groups char_tokenizer ss "doc" 10 5)) = ss.
Proof.
  intros ss.
  destruct (@chunk_coverage char_tokenizer ss "doc" 10 5)
    as (chunks & Hrun & _ & _ & _ & Hall); [lia|].
  exists chunks. split; [exact Hrun|].
  apply Hall. intros s [<- | [<- | [<- | []]]]; vm_compute;
    (split; discriminate).
Defined.

(** C6, as stated, fails: the splitter cuts the oversized sentence "1.2.3"
    (five tokens, one for each digit and dot, [T = 3], [O = 1]) into the
    overlapping pieces "1.2" and "2.3"; neither chunk carries a sentence
    of the chunk before it, so nothing is removed as overlap duplication,
    and with no separator do the two raw texts give back "1.2.3".  Without
    any overlap ([O = 0]) the trimming of the pieces loses text: "1.",
    two spaces, "2" gives the chunks "1." and "2". *)
Lemma chunk_coverage_counterexample :
  let ss := [mkSentence "1.2.3" None] in
  let ss' := [mkSentence "1.  2" None] in
  (exists c1 c2,
     @chunk_sentences char_tokenizer ss "doc" 3 1 = Some [c1; c2] /\
     raw_text c1 = "1.2" /\ raw_text c2 = "2.3" /\
     map g_seed (@chunk_groups char_tokenizer ss "doc" 3 1)
       = [0%nat; 0%nat] /\
     map text
       (List.concat (map fresh (@chunk_groups char_tokenizer ss "doc" 3 1)))
       <> map text ss /\
     forall sep, Py.join sep [raw_text c1; raw_text c2] <> "1.2.3") /\
  (option_map (map raw_text)
     (@chunk_sentences char_tokenizer ss' "doc" 3 0) = Some ["1."; "2"] /\
   map g_seed (@chunk_groups char_tokenizer ss' "doc" 3 0)
     = [0%nat; 0%nat] /\
   Py.join "" ["1."; "2"] <> "1.  2" /\ Py.join " " ["1."; "2"] <> "1.  2").
Proof.
  split.
  - eexists. eexists. split; [vm_compute; reflexivity|].
    split; [reflexivity|]. split; [reflexivity|].
    split; [vm_compute; reflexivity|]. split; [vm_compute; discriminate|].
    intros sep H. apply (f_equal String.length) in H.
    cbn [raw_text Py.join] in H. rewrite !PyFacts.length_append in H.
    simpl in H. lia.
  - repeat split; vm_compute; (reflexivity || discriminate).
Qed.

(** A seed that the retried sentence does not fit with either is finalized
    alone, as a chunk of its own without any new sentence, and the seed
    computed from it is dropped. *)
Lemma seed_only_chunk `{tk : Tokenizer} (file_name : string) (T O : Z)
    (s : Sentence) (st : State) :
  Py.strip (text s) <> "" ->
  _tok_len (Py.strip (text s)) <= T ->
  cur st <> [] ->
  T < cur_toks st + _tok_len (Py.strip (text s)) ->
  fst (next_seed O (cur st) (cur_toks st)) <> [] ->
  T < snd (next_seed O (cur st) (cur_toks st)) + _tok_len (Py.strip (text s)) ->
  exists st1 st2,
    loop_body file_name T O s st = Some st1 /\
    loop_body file_name T O s st1 = Some st2 /\
    i st2 = i st /\ cur st2 = [] /\
    chunks st2 =
      chunks st ++
      [finalize file_name (cur st) (chunk_no st);
       finalize file_name (fst (next_seed O (cur st) (cur_toks st)))
         (chunk_no st + 1)].
Proof.
  intros Hne Hfit Hc Hover Hseed Hover'.
  rewrite (loop_body_overflow file_name T O s st Hne Hfit Hc Hover).
  eexists. eexists. split; [reflexivity|].
  rewrite loop_body_overflow by assumption.
  split; [reflexivity|]. cbn [i cur cur_toks chunks chunk_no].
  split; [reflexivity|]. split; [|now rewrite <- app_assoc].
  unfold next_seed in *.
  destruct (build_overlap O (cur st)) as [ov ot] eqn:Hbo.
  destruct ((List.length ov =? List.length (cur st))%nat
            && (ot =? cur_toks st)); cbn [fst snd] in *; [congruence|].
  rewrite (build_overlap_idem O _ _ _ Hbo).
  now rewrite Nat.eqb_refl, Z.eqb_refl.
Qed.

(** C10. With [T = 10] and [O = 5] (one token for each character), the
    sentences of 5, 3 and 9 tokens give three chunks: the second one is
    the overlap seed "4.5" alone, carried over from the first chunk, whose
    proper suffix it is; the third sentence fits neither with the first
    two nor with the seed, so the seed is finalized without any new
    sentence and its text stands in two consecutive chunks. *)
Theorem overlap_only_chunk :
  exists (tk : Tokenizer) (sentences : list Sentence) (file_name : string)
         (T O : Z) (c1 c2 c3 : Chunk) (s1 s2 s3 : Sentence),
    0 < T /\ 0 < O < T /\
    sentences = [s1; s2; s3] /\
    chunk_sentences sentences file_name T O = Some [c1; c2; c3] /\
    chunk_groups sentences file_name T O =
      [mkGroup [s1; s2] 0 false; mkGroup [s2] 1 false; mkGroup [s3] 0 false] /\
    fresh (mkGroup [s2] 1 false) = [] /\
    next_seed O [s1; s2] (_tok_len (text s1) + _tok_len (text s2))
      = ([s2], _tok_len (text s2)) /\
    T < _tok_len (text s2) + _tok_len (Py.strip (text s3)) /\
    raw_text c1 = "1.2.3 4.5" /\ raw_text c2 = "4.5" /\
    raw_text c3 = "6.7.8.9.0".
Proof.
  exists char_tokenizer,
    [mkSentence "1.2.3" None; mkSentence "4.5" None;
     mkSentence "6.7.8.9.0" None], "doc", 10, 5.
  do 3 eexists.
  exists (mkSentence "1.2.3" None), (mkSentence "4.5" None),
    (mkSentence "6.7.8.9.0" None).
  split; [lia|]. split; [lia|]. split; [reflexivity|].
  split; [vm_compute; reflexivity|].
  repeat split; vm_compute; congruence.
Qed.

(** ** The oversized-sentence splitter *)

(** Both tokenizers used to run the code are lossless: decoding the tokens
    of a text gives the text back. *)
Lemma char_roundtrip (s : string) : char_decode (char_encode s) = s.
Proof.
  induction s as [|c r IH]; simpl; [reflexivity|].
  now rewrite Nat2Z.id, ascii_nat_embedding, IH.
Qed.

Lemma merge_decode_char (c : ascii) (l : list Z) :
  merge_decode (Z.of_nat (nat_of_ascii c) :: l) = String c (merge_decode l).
Proof.
  simpl. pose proof (nat_ascii_bounded c) as Hc.
  destruct (Z.eqb_spec (Z.of_nat (nat_of_ascii c)) 256); [lia|].
  now rewrite Nat2Z.id, ascii_nat_embedding.
Qed.

Lemma merge_roundtrip (s : string) : merge_decode (merge_encode s) = s.
Proof.
  assert (H : forall n s, (String.length s <= n)%nat ->
                          merge_decode (merge_encode s) = s).
  { clear s. induction n as [|n IH]; intros s Hlen.
    - destruct s; [reflexivity | simpl in Hlen; lia].
    - destruct s as [|c r]; [reflexivity|].
      simpl in Hlen.
      destruct r as [|a [|b r']].
      + cbn [merge_encode]. now rewrite merge_decode_char.
      + cbn [merge_encode]. now rewrite !merge_decode_char.
      + change (merge_encode (String c (String a (String b r'))))
          with (if (c =? " ")%char && (a =? "a")%char && (b =? "b")%char
                then 256 :: merge_encode r'
                else Z.of_nat (nat_of_ascii c)
                       :: merge_encode (String a (String b r'))).
        destruct ((c =? " ")%char && (a =? "a")%char && (b =? "b")%char)
          eqn:Hm.
        * apply andb_true_iff in Hm. destruct Hm as [Hm Hb].
          apply andb_true_iff in Hm. destruct Hm as [Hc Ha].
          apply Ascii.eqb_eq in Hc, Ha, Hb. subst c a b.
          change (merge_decode (256 :: merge_encode r'))
            with (" ab" ++ merge_decode (merge_encode r'))%string.
          rewrite IH by (simpl in Hlen; lia). reflexivity.
        * rewrite merge_decode_char, IH by lia. reflexivity. }
  apply (H (String.length s)). lia.
Qed.

Section Windows.
Context `{tk : Tokenizer}.
Variables (toks : list Z) (T step : Z).

Let n := Z.of_nat (List.length toks).
Let q := (n - T + step - 1) / step.

Hypothesis T_pos : 0 < T.
Hypothesis step_pos : 0 < step.
Hypothesis step_le : step <= T.
Hypothesis oversized : T < n.

Lemma q_nonneg : 0 <= q.
Proof. apply Z.div_pos; lia. Qed.

Lemma q_reaches : n <= q * step + T.
Proof.
  pose proof (Z.div_mod (n - T + step - 1) step ltac:(lia)) as E.
  pose proof (Z.mod_pos_bound (n - T + step - 1) step step_pos) as B.
  fold q in E. nia.
Qed.

Lemma before_q (k : Z) : 0 <= k < q -> k * step + T < n.
Proof.
  intros Hk.
  pose proof (Z.div_mod (n - T + step - 1) step ltac:(lia)) as E.
  pose proof (Z.mod_pos_bound (n - T + step - 1) step step_pos) as B.
  fold q in E. nia.
Qed.

Lemma start_inside (k : Z) : 0 <= k <= q -> k * step < n.
Proof.
  intros Hk. destruct (Z.eq_dec k 0) as [-> | Hk0]; [lia|].
  pose proof (before_q (k - 1) ltac:(lia)). nia.
Qed.

(** The loop started on window [k] emits the pieces of the windows [k]
    to [q] that are not blank, and leaves through its [break]. *)
Lemma split_loop_windows (m : nat) :
  forall (k fuel : nat) (pieces : list string),
    Z.of_nat (k + m) = q -> (m < fuel)%nat ->
    split_loop fuel toks T step (Z.of_nat k * step) pieces =
    Some (pieces ++
          filter Py.truthy
            (map (piece_of toks) (map (window n T step) (seq k (S m))))).
Proof.
  induction m as [|m IH]; intros k fuel pieces Hk Hfuel;
    (destruct fuel as [|fuel]; [lia|]); cbn [split_loop]; fold n.
  - pose proof (start_inside (Z.of_nat k) ltac:(lia)) as Hin.
    pose proof q_reaches as Hq.
    destruct (Z.ltb_spec (Z.of_nat k * step) n); [|lia].
    replace (Z.min (Z.of_nat k * step + T) n) with n by lia.
    rewrite Z.eqb_refl. cbn [seq map filter].
    unfold piece_of, window. cbn [fst snd].
    replace (Z.min (Z.of_nat k * step + T) n) with n by lia.
    destruct (Py.truthy _); [reflexivity | now rewrite app_nil_r].
  - pose proof (start_inside (Z.of_nat k) ltac:(lia)) as Hin.
    pose proof (before_q (Z.of_nat k) ltac:(lia)) as Hbefore.
    destruct (Z.ltb_spec (Z.of_nat k * step) n); [|lia].
    destruct (Z.eqb_spec (Z.min (Z.of_nat k * step + T) n) n); [lia|].
    replace (Z.of_nat k * step + step) with (Z.of_nat (S k) * step) by lia.
    rewrite IH by lia.
    f_equal. cbn [seq map filter].
    unfold piece_of at 3, window at 3. cbn [fst snd].
    destruct (Py.truthy _); [now rewrite <- app_assoc | reflexivity].
Qed.

Lemma windows_fit :
  Forall
    (fun w =>
       0 <= fst w < snd w /\ snd w <= n /\ snd w - fst w <= T /\
       Z.of_nat (List.length (Py.slice toks (fst w) (snd w))) = snd w - fst w)
    (windows n T step).
Proof.
  unfold windows, window_count. fold q.
  apply Forall_forall. intros w Hw. apply in_map_iff in Hw.
  destruct Hw as (k & <- & Hk). apply in_seq in Hk.
  pose proof q_nonneg.
  pose proof (start_inside (Z.of_nat k) ltac:(lia)) as Hin.
  unfold window. cbn [fst snd].
  assert (Hk0 : 0 <= Z.of_nat k * step) by nia.
  repeat split; try lia.
  unfold Py.slice, Py.clamp. fold n.
  destruct (Z.ltb_spec (Z.of_nat k * step) 0); [lia|].
  destruct (Z.ltb_spec (Z.min (Z.of_nat k * step + T) n) 0); [lia|].
  rewrite length_firstn, length_skipn. lia.
Qed.

Lemma windows_last : snd (last (windows n T step) (0, 0)) = n.
Proof.
  unfold windows, window_count. fold q.
  rewrite seq_S, map_app. cbn [map]. rewrite last_last.
  unfold window. cbn [Nat.add snd].
  pose proof q_reaches. pose proof q_nonneg. lia.
Qed.

Lemma windows_full (k : nat) :
  (S k < List.length (windows n T step))%nat ->
  nth k (windows n T step) (0, 0)
    = (Z.of_nat k * step, Z.of_nat k * step + T) /\
  Z.of_nat k * step + T < n.
Proof.
  unfold windows, window_count. fold q.
  rewrite length_map, length_seq. intros Hk.
  pose proof q_nonneg.
  pose proof (before_q (Z.of_nat k) ltac:(lia)) as Hbefore.
  split; [|exact Hbefore].
  rewrite nth_indep with (d' := window n T step 0)
    by (rewrite length_map, length_seq; lia).
  rewrite map_nth, seq_nth by lia.
  unfold window. cbn [Nat.add]. f_equal. lia.
Qed.

Lemma split_loop_all :
  split_loop (List.length toks) toks T step 0 [] =
  Some (filter Py.truthy (map (piece_of toks) (windows n T step))).
Proof.
  pose proof q_nonneg as Hq.
  pose proof (start_inside q ltac:(lia)) as Hin.
  assert (Hfuel : (Z.to_nat q < List.length toks)%nat)
    by (unfold n in Hin; nia).
  pose proof (split_loop_windows (Z.to_nat q) 0 (List.length toks) []
                ltac:(lia) Hfuel) as E.
  simpl in E. exact E.
Qed.

End Windows.

Lemma split_step_spec (T O : Z) :
  0 <= O -> split_step T O = if 0 <? T - O then T - O else T.
Proof.
  intros HO. unfold split_step. rewrite Z.max_r by exact HO.
  destruct (Z.leb_spec (T - O) 0), (Z.ltb_spec 0 (T - O)); lia.
Qed.

Lemma split_step_le (T O : Z) : split_step T O <= T.
Proof. unfold split_step. destruct (Z.leb_spec (T - Z.max 0 O) 0); lia. Qed.

(** C5, as the code has it. For [T > 0], [O >= 0] and a text of more than
    [T] tokens, the splitter lays windows over the token sequence: window
    [k] starts at [k * step], with [step = T - O] when that is positive
    and [step = T] otherwise, is [T] tokens wide, and the last window is
    the first one that reaches the end, where it is cut.  The result is
    the list, in order, of the trimmed decodings of those windows that are
    not empty; a window that decodes to blank text gives no piece.  Every
    window lies inside the token sequence and holds at most [T] tokens, so
    every piece is decoded from at most [T] tokens.  A sequence of 5000
    tokens with [T = 2000], [O = 200] has exactly the windows [0:2000),
    [1800:3800), [3600:5000). *)
Theorem split_text_windows `{tk : Tokenizer} (text : string) (T O : Z) :
  0 < T -> 0 <= O ->
  T < Z.of_nat (List.length (encode text)) ->
  let toks := encode text in
  let n := Z.of_nat (List.length toks) in
  let step := if 0 <? T - O then T - O else T in
  let ws := windows n T step in
  _split_text_by_tokens text T O
    = Some (filter Py.truthy (map (piece_of toks) ws)) /\
  Forall
    (fun w =>
       0 <= fst w < snd w /\ snd w <= n /\ snd w - fst w <= T /\
       Z.of_nat (List.length (Py.slice toks (fst w) (snd w))) = snd w - fst w)
    ws /\
  (forall k, (S k < List.length ws)%nat ->
     nth k ws (0, 0) = (Z.of_nat k * step, Z.of_nat k * step + T) /\
     Z.of_nat k * step + T < n) /\
  snd (last ws (0, 0)) = n /\
  (forall pieces p,
     _split_text_by_tokens text T O = Some pieces -> In p pieces ->
     exists w, In w ws /\ p = piece_of toks w /\ p <> "" /\
               Z.of_nat (List.length (Py.slice toks (fst w) (snd w))) <= T) /\
  (n = 5000 -> T = 2000 -> O = 200 ->
   ws = [(0, 2000); (1800, 3800); (3600, 5000)]).
Proof.
  intros HT HO Hbig toks n step ws.
  assert (Estep : step = split_step T O)
    by (symmetry; now apply split_step_spec).
  pose proof (split_step_pos T O HT) as Hpos.
  pose proof (split_step_le T O) as Hle.
  rewrite <- Estep in Hpos, Hle.
  assert (Hrun : _split_text_by_tokens text T O
                 = Some (filter Py.truthy (map (piece_of toks) ws))).
  { unfold _split_text_by_tokens. fold toks. fold n.
    destruct (Z.leb_spec n T); [unfold n, toks in *; lia|].
    rewrite <- Estep. now apply split_loop_all. }
  pose proof (windows_fit toks T step HT Hpos Hle Hbig) as Hfit.
  split; [exact Hrun|]. split; [exact Hfit|].
  split; [intros k Hk; now apply windows_full|].
  split; [now apply windows_last|]. split.
  - intros pieces p Hp Hin.
    assert (E : pieces = filter Py.truthy (map (piece_of toks) ws))
      by congruence.
    rewrite E in Hin. apply filter_In in Hin. destruct Hin as [Hin Hne].
    apply in_map_iff in Hin. destruct Hin as (w & <- & Hw).
    exists w. split; [exact Hw|]. split; [reflexivity|]. split.
    + intros E0. rewrite E0 in Hne. discriminate.
    + rewrite Forall_forall in Hfit.
      destruct (Hfit w Hw) as (_ & _ & Hwidth & ->). exact Hwidth.
  - intros En ET EO. unfold ws, step. rewrite En, ET, EO. reflexivity.
Qed.

Lemma split_text_windows_witness :
  @_split_text_by_tokens char_tokenizer "1.2.3" 3 1 = Some ["1.2"; "2.3"].
Proof.
  destruct (@split_text_windows char_tokenizer "1.2.3" 3 1) as (Hrun & _);
    [lia | lia | vm_compute; reflexivity |].
  rewrite Hrun. reflexivity.
Defined.

(** C5, as stated, fails on both counts (tokenizer with the one merged
    token " ab", [T = 2000], [O = 200], texts of 5000 tokens).  A window
    that decodes to blank text is dropped: "a", 4998 spaces, "b" gives two
    pieces, not three.  A piece can have more than [T] tokens: in 1800
    dots, " ab", 3199 dots the second window starts with the merged token;
    trimmed, its text starts with "ab", two tokens, and has 2001. *)
Lemma split_text_counterexample :
  let blank := chars 1 "a" (chars 4998 " " "b") in
  let merged := chars 1800 "." (" ab" ++ chars 3199 "." "")%string in
  List.length (merge_encode blank) = 5000%nat /\
  @_split_text_by_tokens merge_tokenizer blank 2000 200 = Some ["a"; "b"] /\
  List.length (merge_encode merged) = 5000%nat /\
  option_map (map (@_tok_len merge_tokenizer))
    (@_split_text_by_tokens merge_tokenizer merged 2000 200)
  = Some [2000; 2001; 1400] /\
  ~ (2001 <= 2000).
Proof.
  repeat split; try (vm_compute; reflexivity). lia.
Qed.

(** ** The overlap carry-forward *)

Section Carry.
Context `{tk : Tokenizer}.
Variable O : Z.

(** What the walk takes: the first sentence it meets when it starts empty,
    further ones as long as the total stays within [O], and it stops at
    the first sentence that would exceed [O]. *)
Lemma overlap_walk_spec (rs : list Sentence) :
  forall acc t,
  exists taken left,
    rs = taken ++ left /\
    overlap_walk O rs acc t = (acc ++ taken, t + walk_toks taken) /\
    (acc <> [] -> taken <> [] -> t + walk_toks taken <= O) /\
    (acc = [] -> (2 <= List.length taken)%nat -> t + walk_toks taken <= O) /\
    (acc = [] -> rs <> [] -> taken <> []) /\
    (forall x left', left = x :: left' ->
       O < t + walk_toks taken + _tok_len (text x)).
Proof.
  induction rs as [|ss rest IH]; intros acc t.
  - exists [], []. simpl. rewrite app_nil_r.
    replace (t + walk_toks []) with t by (unfold walk_toks; simpl; lia).
    repeat split; try congruence; try (simpl; lia).
  - simpl. destruct (Py.nonempty acc && _) eqn:Hstop.
    + apply andb_true_iff in Hstop. destruct Hstop as [Hacc Hgt].
      apply PyFacts.nonempty_true in Hacc. apply Z.gtb_lt in Hgt.
      exists [], (ss :: rest). rewrite app_nil_r.
      replace (t + walk_toks []) with t by (unfold walk_toks; simpl; lia).
      repeat split; try congruence; try (simpl; lia);
        intros x left' [= <- <-]; lia.
    + destruct (IH (acc ++ [ss]) (t + _tok_len (text ss)))
        as (taken & left & -> & E & Ha & _ & _ & Hc).
      exists (ss :: taken), left.
      assert (Ew : walk_toks (ss :: taken)
                   = _tok_len (text ss) + walk_toks taken) by reflexivity.
      assert (Hne : acc ++ [ss] <> []) by (destruct acc; discriminate).
      rewrite Ew, E, <- app_assoc, Z.add_assoc.
      split; [reflexivity|]. split; [reflexivity|].
      split; [|split; [|split; [congruence|]]].
      * intros Hacc _. destruct taken as [|x taken'].
        -- apply PyFacts.nonempty_true in Hacc. rewrite Hacc in Hstop.
           simpl in Hstop. unfold walk_toks. simpl.
           destruct (Z.gtb_spec (t + _tok_len (text ss)) O);
             [discriminate | lia].
        -- apply Ha; [assumption | discriminate].
      * intros _ Hlen. destruct taken as [|x taken']; [simpl in Hlen; lia|].
        apply Ha; [assumption | discriminate].
      * intros x left' El. eapply Hc; eauto.
Qed.

(** The overlap of a finalized chunk: a suffix of it in the original
    order, never empty, within [O] tokens as soon as it has a second
    sentence, and not extensible by the sentence before it. *)
Lemma build_overlap_spec (c : list Sentence) :
  exists pre,
    c = pre ++ fst (build_overlap O c) /\
    snd (build_overlap O c) = walk_toks (fst (build_overlap O c)) /\
    (c <> [] -> fst (build_overlap O c) <> []) /\
    ((2 <= List.length (fst (build_overlap O c)))%nat ->
     walk_toks (fst (build_overlap O c)) <= O) /\
    (forall pre' x, pre = pre' ++ [x] ->
       O < walk_toks (fst (build_overlap O c)) + _tok_len (text x)).
Proof.
  unfold build_overlap.
  destruct (overlap_walk_spec (rev c) [] 0)
    as (taken & left & Hrev & E & _ & Hb & Hd & Hc).
  rewrite E. cbn [fst snd app].
  exists (rev left). split; [|split; [|split; [|split]]].
  - rewrite <- (rev_involutive c), Hrev, rev_app_distr. reflexivity.
  - rewrite walk_toks_rev. lia.
  - intros Hne Hnil. apply Hd; auto.
    + intros Hr. apply Hne. rewrite <- (rev_involutive c), Hr. reflexivity.
    + rewrite <- (rev_involutive taken), Hnil. reflexivity.
  - rewrite length_rev, walk_toks_rev. intros Hlen.
    specialize (Hb eq_refl Hlen). lia.
  - intros pre' x Hpre. rewrite walk_toks_rev.
    apply (f_equal (@rev _)) in Hpre.
    rewrite rev_involutive, rev_app_distr in Hpre. simpl in Hpre.
    specialize (Hc x (rev pre') Hpre). lia.
Qed.

(** When the accumulator's total is the total the walk counts, the guard
    drops the seed exactly when the seed is the whole finalized chunk. *)
Lemma next_seed_consistent (c : list Sentence) :
  c <> [] ->
  (fst (build_overlap O c) = c <->
   next_seed O c (walk_toks c) = ([], 0)).
Proof.
  intros Hne.
  destruct (build_overlap_spec c) as (pre & Hc & Ht & Hov & _).
  unfold next_seed.
  destruct (build_overlap O c) as [ov ot]. cbn [fst snd] in *.
  split.
  - intros ->. rewrite Ht, Nat.eqb_refl, Z.eqb_refl. reflexivity.
  - destruct (Nat.eqb_spec (List.length ov) (List.length c)) as [Hlen|Hlen].
    + intros _. rewrite Hc in Hlen. rewrite length_app in Hlen.
      destruct pre; [now rewrite Hc | simpl in Hlen; lia].
    + simpl. intros [= Hnil _]. specialize (Hov Hne). contradiction.
Qed.

End Carry.

(** The overflow iteration as a whole: the accumulator is finalized under
    the current chunk number, the input pointer stays, and the next
    accumulator is the overlap of [build_overlap_spec], or empty when the
    overlap has the sentence count and the token total of the finalized
    chunk. *)
Lemma overflow_step_spec `{tk : Tokenizer} (file_name : string) (T O : Z)
    (s : Sentence) (st : State) :
  Py.strip (text s) <> "" ->
  _tok_len (Py.strip (text s)) <= T ->
  cur st <> [] ->
  T < cur_toks st + _tok_len (Py.strip (text s)) ->
  exists st',
    loop_body file_name T O s st = Some st' /\
    i st' = i st /\
    chunks st' = chunks st ++ [finalize file_name (cur st) (chunk_no st)] /\
    chunk_no st' = chunk_no st + 1 /\
    let ov := fst (build_overlap O (cur st)) in
    let ot := snd (build_overlap O (cur st)) in
    ((List.length ov = List.length (cur st) /\ ot = cur_toks st) ->
       cur st' = [] /\ cur_toks st' = 0) /\
    (~ (List.length ov = List.length (cur st) /\ ot = cur_toks st) ->
       cur st' = ov /\ cur_toks st' = ot).
Proof.
  intros Hne Hfit Hc Hover.
  rewrite (loop_body_overflow file_name T O s st Hne Hfit Hc Hover).
  eexists. split; [reflexivity|]. cbn [i chunks chunk_no cur cur_toks].
  repeat split; unfold next_seed;
    destruct (build_overlap O (cur st)) as [ov ot]; cbn [fst snd] in *.
  - destruct H as [-> ->]. now rewrite Nat.eqb_refl, Z.eqb_refl.
  - destruct H as [-> ->]. now rewrite Nat.eqb_refl, Z.eqb_refl.
  - destruct (Nat.eqb_spec (List.length ov) (List.length (cur st)));
      destruct (Z.eqb_spec ot (cur_toks st)); simpl; tauto.
  - destruct (Nat.eqb_spec (List.length ov) (List.length (cur st)));
      destruct (Z.eqb_spec ot (cur_toks st)); simpl; tauto.
Qed.

(** C3 on an input with surrounding whitespace ([T = 3], [O = 0], one
    token for each character).  The sentence "1. " is accumulated with the
    two tokens of its trimmed text; when "2.3" overflows, the overlap walk
    recounts it untrimmed, with three tokens.  The overlap is the whole
    finalized chunk, yet the guard compares 3 with 2 and keeps it as the
    seed, so the chunk "1." is finalized a second time before the seed is
    dropped. *)
Theorem overlap_guard_untrimmed :
  let s1 := mkSentence "1. " None in
  let s2 := mkSentence "2.3" None in
  @build_overlap char_tokenizer 0 [s1] = ([s1], 3) /\
  @next_seed char_tokenizer 0 [s1] 2 = ([s1], 3) /\
  option_map (map raw_text)
    (@chunk_sentences char_tokenizer [s1; s2] "doc" 3 0)
  = Some ["1."; "1."; "2.3"] /\
  @chunk_groups char_tokenizer [s1; s2] "doc" 3 0
  = [mkGroup [s1] 0 false; mkGroup [s1] 1 false; mkGroup [s2] 0 false].
Proof. repeat split; vm_compute; reflexivity. Qed.

(** * Further properties *)

(** ** The sentence segmenter *)

Module Segmenter.
Import Py.

Lemma space_not_nul (c : ascii) : is_space c = true -> (c =? zero)%char = false.
Proof.
  intros Hc. destruct (Ascii.eqb_spec c zero) as [-> | Hne]; [|reflexivity].
  discriminate Hc.
Qed.

Lemma is_space_space : is_space " " = true.
Proof. reflexivity. Qed.

Lemma sub_ws_single_spaced (s : string) :
  forall in_run, single_spaced in_run (sub_ws in_run (replace_nul s)) = true.
Proof.
  induction s as [|c r IH]; intros in_run; simpl; [reflexivity|].
  destruct (Ascii.eqb_spec c zero) as [-> | Hne].
  - rewrite is_space_space. destruct in_run; [apply IH|].
    simpl. apply IH.
  - destruct (is_space c) eqn:Hc.
    + destruct in_run; [apply IH|]. simpl. apply IH.
    + simpl. rewrite Hc.
      destruct (Ascii.eqb_spec c zero); [contradiction|]. simpl. apply IH.
Qed.

Lemma single_spaced_weaken (s : string) :
  single_spaced true s = true -> single_spaced false s = true.
Proof.
  destruct s as [|c r]; simpl; [reflexivity|].
  destruct (is_space c); [|auto].
  rewrite andb_false_r. discriminate.
Qed.

Lemma lstrip_single_spaced (s : string) :
  forall b, single_spaced b s = true -> single_spaced true (lstrip s) = true.
Proof.
  induction s as [|c r IH]; intros b; simpl; [reflexivity|].
  destruct (is_space c) eqn:Hc.
  - intros H. apply andb_true_iff in H. destruct H as [_ Hr]. eauto.
  - intros H. simpl. now rewrite Hc.
Qed.

Lemma rstrip_tidy (s : string) :
  forall b, single_spaced b s = true ->
            rstrip s = EmptyString \/ tidy_from b (rstrip s) = true.
Proof.
  induction s as [|c r IH]; intros b; simpl; [now left|].
  destruct (is_space c) eqn:Hc.
  - intros H. apply andb_true_iff in H. destruct H as [H Hr].
    apply andb_true_iff in H. destruct H as [Hsp Hb].
    destruct (IH true Hr) as [E | Ht].
    + rewrite E. now left.
    + destruct (rstrip r) as [|c' r'] eqn:E; [discriminate Ht|].
      right. change (tidy_from b (String c (String c' r')) = true).
      cbn [tidy_from]. rewrite Hc, Hsp, Hb. exact Ht.
  - intros H. apply andb_true_iff in H. destruct H as [Hz Hr].
    right. destruct (IH false Hr) as [E | Ht].
    + rewrite E. simpl. now rewrite Hc, Hz.
    + destruct (rstrip r) as [|c' r'] eqn:E.
      * simpl. now rewrite Hc, Hz.
      * change (tidy_from b (String c (String c' r')) = true).
        cbn [tidy_from]. rewrite Hc, Hz. exact Ht.
Qed.

(** [_clean_text] leaves a tidy text. *)
Lemma clean_text_tidy (s : string) : tidy (_clean_text s) = true.
Proof.
  unfold _clean_text, strip.
  pose proof (sub_ws_single_spaced s false) as H.
  apply lstrip_single_spaced in H.
  destruct (rstrip_tidy _ _ H) as [E | Ht].
  - now rewrite E.
  - unfold tidy. destruct (rstrip _); [reflexivity | exact Ht].
Qed.

Lemma tidy_from_single_spaced (s : string) :
  forall b, tidy_from b s = true -> single_spaced b s = true.
Proof.
  induction s as [|c r IH]; intros b; simpl; [reflexivity|].
  destruct (is_space c).
  - intros H. apply andb_true_iff in H. destruct H as [H Hr].
    rewrite H. now apply IH.
  - intros H. apply andb_true_iff in H. destruct H as [H Hr].
    rewrite H. now apply IH.
Qed.

Lemma tidy_from_replace_nul (s : string) :
  forall b, tidy_from b s = true -> replace_nul s = s.
Proof.
  induction s as [|c r IH]; intros b; simpl; [reflexivity|].
  destruct (is_space c) eqn:Hc.
  - intros H. apply andb_true_iff in H. destruct H as [_ Hr].
    rewrite (space_not_nul c Hc). f_equal. eauto.
  - intros H. apply andb_true_iff in H. destruct H as [Hz Hr].
    apply negb_true_iff in Hz. rewrite Hz. f_equal. eauto.
Qed.

Lemma tidy_from_sub_ws (s : string) :
  forall b, tidy_from b s = true -> sub_ws b s = s.
Proof.
  induction s as [|c r IH]; intros b; simpl; [reflexivity|].
  destruct (is_space c) eqn:Hc.
  - intros H. apply andb_true_iff in H. destruct H as [H Hr].
    apply andb_true_iff in H. destruct H as [Hsp Hb].
    apply negb_true_iff in Hb. subst b.
    apply Ascii.eqb_eq in Hsp. subst c. f_equal. eauto.
  - intros H. apply andb_true_iff in H. destruct H as [_ Hr].
    f_equal. eauto.
Qed.

Lemma tidy_from_rstrip (s : string) :
  forall b, tidy_from b s = true -> rstrip s = s.
Proof.
  induction s as [|c r IH]; intros b; simpl; [reflexivity|].
  destruct (is_space c) eqn:Hc.
  - intros H. apply andb_true_iff in H. destruct H as [_ Hr].
    rewrite (IH true Hr). destruct r; [discriminate Hr | reflexivity].
  - intros H. apply andb_true_iff in H. destruct H as [_ Hr].
    rewrite (IH false Hr). now destruct r.
Qed.

Lemma tidy_from_true_head (s : string) :
  tidy_from true s = true ->
  exists c r, s = String c r /\ is_space c = false.
Proof.
  destruct s as [|c r]; simpl; [discriminate|].
  destruct (is_space c) eqn:Hc; [|eauto].
  rewrite andb_false_r. discriminate.
Qed.

Lemma tidy_strip (s : string) : tidy s = true -> strip s = s.
Proof.
  unfold tidy, strip. destruct s as [|c r]; [reflexivity|].
  intros H. destruct (tidy_from_true_head _ H) as (c' & r' & [= <- <-] & Hc).
  rewrite (PyFacts.lstrip_head c r Hc). now apply (tidy_from_rstrip _ true).
Qed.

Lemma stop_not_space (c : ascii) : is_stop c = true -> is_space c = false.
Proof.
  unfold is_stop. intros H.
  apply orb_true_iff in H. destruct H as [H | H];
    [apply orb_true_iff in H; destruct H as [H | H]|];
    apply Ascii.eqb_eq in H; subst c; reflexivity.
Qed.

Lemma sentence_split_nonempty (s : string) :
  forall mode, sentence_split mode s <> [].
Proof.
  induction s as [|c r IH]; intros mode; simpl; [discriminate|].
  destruct (is_space c); [destruct mode|]; try discriminate;
    try apply IH; unfold cons_head;
    match goal with |- context [sentence_split ?m r] =>
      destruct (sentence_split m r) end; discriminate.
Qed.

Lemma join_cons_head (sep : string) (c : ascii) (l : list string) :
  l <> [] -> join sep (cons_head c l) = String c (join sep l).
Proof.
  destruct l as [|p [|q l]]; [congruence | reflexivity | reflexivity].
Qed.

(** Joining the pieces of a tidy text with single spaces gives the text
    back. *)
Lemma sentence_split_join (s : string) :
  forall mode b,
    tidy_from b s = true -> (mode = InGap -> b = true) ->
    join " " (sentence_split mode s) = s.
Proof.
  induction s as [|c r IH]; intros mode b; simpl; [reflexivity|].
  destruct (is_space c) eqn:Hc.
  - intros H Hm. apply andb_true_iff in H. destruct H as [H Hr].
    apply andb_true_iff in H. destruct H as [Hsp Hb].
    apply negb_true_iff in Hb. subst b.
    apply Ascii.eqb_eq in Hsp. subst c.
    destruct mode; [| |now specialize (Hm eq_refl)].
    + rewrite join_cons_head by apply sentence_split_nonempty.
      f_equal. now apply (IH Plain true).
    + pose proof (sentence_split_nonempty r InGap) as Hne.
      pose proof (IH InGap true Hr (fun _ => eq_refl)) as E.
      destruct (sentence_split InGap r) as [|p l]; [congruence|].
      change (join " " (EmptyString :: p :: l))
        with (String " " (join " " (p :: l))).
      now rewrite E.
  - intros H _. apply andb_true_iff in H. destruct H as [_ Hr].
    rewrite join_cons_head by apply sentence_split_nonempty.
    f_equal. apply (IH _ false Hr). destruct (is_stop c); discriminate.
Qed.

Lemma rstrip_cons (c : ascii) (h : string) :
  is_space c = false -> rstrip h = h -> rstrip (String c h) = String c h.
Proof. intros Hc Hh. simpl. rewrite Hh, Hc. now destruct h. Qed.

(** The shape of the pieces of a tidy text: the rest of the piece the scan
    is in does not end with whitespace and starts with a character when a
    space came before; every later piece is trimmed and not empty. *)
Lemma sentence_split_pieces (s : string) :
  forall mode b,
    tidy_from b s = true -> (mode = InGap -> b = true) ->
    exists h tl,
      sentence_split mode s = h :: tl /\
      rstrip h = h /\
      (b = true -> exists c h', h = String c h' /\ is_space c = false) /\
      Forall (fun p => p <> EmptyString /\ strip p = p) tl.
Proof.
  induction s as [|c r IH]; intros mode b; simpl.
  - intros Hb _. apply negb_true_iff in Hb. subst b.
    exists EmptyString, []. repeat split; auto. discriminate.
  - destruct (is_space c) eqn:Hc.
    + intros H Hm. apply andb_true_iff in H. destruct H as [H Hr].
      apply andb_true_iff in H. destruct H as [_ Hb].
      apply negb_true_iff in Hb. subst b.
      destruct mode; [| |now specialize (Hm eq_refl)].
      * destruct (IH Plain true Hr ltac:(discriminate))
          as (h & tl & -> & Hh & Hhead & Htl).
        destruct (Hhead eq_refl) as (c' & h' & -> & Hc').
        exists (String c (String c' h')), tl.
        repeat split; auto; [|discriminate].
        change (rstrip (String c (String c' h')))
          with (match rstrip (String c' h') with
                | EmptyString =>
                    if is_space c then EmptyString else String c EmptyString
                | r0 => String c r0
                end).
        now rewrite Hh.
      * destruct (IH InGap true Hr (fun _ => eq_refl))
          as (h & tl & -> & Hh & Hhead & Htl).
        destruct (Hhead eq_refl) as (c' & h' & -> & Hc').
        exists EmptyString, (String c' h' :: tl).
        repeat split; auto; [discriminate|].
        constructor; [|exact Htl]. split; [discriminate|].
        unfold strip. now rewrite (PyFacts.lstrip_head c' h' Hc').
    + intros H _. apply andb_true_iff in H. destruct H as [_ Hr].
      destruct (IH (if is_stop c then AfterStop else Plain) false Hr)
        as (h & tl & -> & Hh & _ & Htl);
        [destruct (is_stop c); discriminate|].
      exists (String c h), tl. repeat split; auto.
      * now apply rstrip_cons.
      * intros _. eauto.
Qed.

(** Every piece but the last ends with one of [.!?], and inside a piece
    no whitespace follows one of them. *)
Lemma sentence_split_stops (s : string) :
  forall mode,
  exists h tl,
    sentence_split mode s = h :: tl /\
    (tl <> [] ->
     last_stop (match mode with AfterStop => true | _ => false end) h = true) /\
    (forall k, (S k < List.length tl)%nat ->
               last_stop false (nth k tl EmptyString) = true) /\
    no_boundary (match mode with AfterStop => true | _ => false end) h = true /\
    Forall (fun p => no_boundary false p = true) tl.
Proof.
  induction s as [|c r IH]; intros mode; simpl.
  - exists EmptyString, []. repeat split; auto; try congruence.
    simpl. intros k Hk. lia.
  - destruct (is_space c) eqn:Hc.
    + destruct mode.
      * destruct (IH Plain) as (h & tl & -> & Hlast & Hinit & Hnb & Htl).
        exists (String c h), tl. simpl.
        assert (Hs : is_stop c = false).
        { destruct (is_stop c) eqn:E; [|reflexivity].
          apply stop_not_space in E. congruence. }
        rewrite Hs. repeat split; auto.
      * destruct (IH InGap) as (h & tl & -> & Hlast & Hinit & Hnb & Htl).
        exists EmptyString, (h :: tl). repeat split; auto.
        intros [|k] Hk; simpl in *; [apply Hlast; destruct tl;
          [simpl in Hk; lia | discriminate] | apply Hinit; lia].
      * destruct (IH InGap) as (h & tl & -> & Hlast & Hinit & Hnb & Htl).
        exists h, tl. repeat split; auto.
    + destruct (IH (if is_stop c then AfterStop else Plain))
        as (h & tl & -> & Hlast & Hinit & Hnb & Htl).
      exists (String c h), tl. simpl. rewrite Hc, andb_false_r. simpl.
      repeat split; auto.
      * intros Hne. specialize (Hlast Hne). now destruct (is_stop c).
      * now destruct (is_stop c).
Qed.

Lemma last_stop_spec (p : string) :
  forall b,
    last_stop b p = true ->
    (p = EmptyString /\ b = true) \/
    exists q c, p = (q ++ String c EmptyString)%string /\ is_stop c = true.
Proof.
  induction p as [|c r IH]; intros b; simpl; [now left|].
  intros H. right. destruct (IH _ H) as [[-> Hc] | (q & c' & -> & Hc')].
  - now exists EmptyString, c.
  - now exists (String c q), c'.
Qed.

Lemma no_boundary_spec (p : string) :
  forall b,
    no_boundary b p = true ->
    forall a c1 c2 r,
      p = (a ++ String c1 (String c2 r))%string ->
      is_stop c1 = true -> is_space c2 = false.
Proof.
  induction p as [|c r IH]; intros b H a c1 c2 r' E Hs.
  - destruct a; discriminate.
  - simpl in H. apply andb_true_iff in H. destruct H as [_ Hr].
    destruct a as [|x a]; simpl in E.
    + injection E as -> ->. simpl in Hr. rewrite Hs in Hr. simpl in Hr.
      apply andb_true_iff in Hr. destruct Hr as [Hr _].
      now apply negb_true_iff in Hr.
    + injection E as -> ->. eapply IH; eauto.
Qed.

Lemma flat_map_kept (pg : option Z) (parts : list string) :
  Forall (fun p => p <> EmptyString /\ strip p = p) parts ->
  flat_map
    (fun p => if truthy (strip p) then [mkSentence (strip p) pg] else [])
    parts
  = map (fun p => mkSentence p pg) parts.
Proof.
  induction 1 as [|p parts [Hne Hp] _ IH]; simpl; [reflexivity|].
  rewrite Hp, IH. destruct p; [congruence | reflexivity].
Qed.

(** The sentences are the pieces of the cleaned text, untouched. *)
Lemma split_sentences_pieces (t : string) (pg : option Z) :
  _clean_text t <> EmptyString ->
  split_sentences t pg =
  map (fun p => mkSentence p pg) (sentence_split Plain (_clean_text t)) /\
  tidy_from true (_clean_text t) = true.
Proof.
  intros Hne. pose proof (clean_text_tidy t) as Ht.
  unfold split_sentences.
  destruct (_clean_text t) as [|c r] eqn:E; [congruence|].
  unfold tidy in Ht. split; [|exact Ht]. cbn [truthy negb].
  apply flat_map_kept.
  destruct (sentence_split_pieces _ Plain true Ht ltac:(discriminate))
    as (h & tl & -> & Hh & Hhead & Htl).
  destruct (Hhead eq_refl) as (c' & h' & -> & Hc').
  constructor; [|exact Htl]. split; [discriminate|].
  unfold strip. now rewrite (PyFacts.lstrip_head c' h' Hc').
Qed.

(** X1. Joining the sentence texts of [split_sentences] with single
    spaces gives the cleaned text back: the segmenter loses nothing of
    [_clean_text(text)] and adds nothing. *)
Theorem split_sentences_roundtrip (t : string) (pg : option Z) :
  join " " (map text (split_sentences t pg)) = _clean_text t.
Proof.
  destruct (_clean_text t) as [|c r] eqn:E.
  - unfold split_sentences. now rewrite E.
  - destruct (split_sentences_pieces t pg) as [-> Ht]; [congruence|].
    rewrite map_map. cbn [text]. rewrite map_id, E.
    rewrite E in Ht.
    apply (sentence_split_join _ Plain true Ht). discriminate.
Qed.

Lemma sentence_wellformed (t : string) (pg : option Z) (s : Sentence) :
  In s (split_sentences t pg) ->
  text s <> EmptyString /\ strip (text s) = text s /\ page s = pg.
Proof.
  unfold split_sentences. destruct (negb _); [intros []|].
  intros H. apply in_flat_map in H. destruct H as (p & _ & H).
  destruct (strip p) as [|c r] eqn:E; simpl in H; [destruct H|].
  destruct H as [<- | []]. cbn [text page].
  split; [discriminate|]. split; [|reflexivity].
  rewrite <- E. apply PyFacts.strip_idem.
Qed.

(** X2. Every sentence of [split_sentences] has a text that is not empty
    and carries no surrounding whitespace, and has the page it was called
    with. *)
Theorem split_sentences_trimmed (t : string) (pg : option Z) (s : Sentence) :
  In s (split_sentences t pg) ->
  text s <> EmptyString /\ strip (text s) = text s /\ page s = pg.
Proof. apply sentence_wellformed. Qed.

Lemma split_sentences_trimmed_witness :
  let s := mkSentence "How are you?" (Some 3) in
  text s <> EmptyString /\ strip (text s) = text s /\ page s = Some 3.
Proof.
  apply (split_sentences_trimmed "  Hi there.  How are you? Fine!" (Some 3)).
  vm_compute. auto.
Defined.

Lemma nth_map_text (pg : option Z) (l : list string) :
  forall k d,
    (k < List.length l)%nat ->
    text (nth k (map (fun p => mkSentence p pg) l) d) = nth k l EmptyString.
Proof.
  induction l as [|p l IH]; intros [|k] d Hk; simpl in *; try lia;
    [reflexivity | apply IH; lia].
Qed.

(** X3. Sentence boundaries are exactly the whitespace after one of
    [.!?]: every sentence but the last ends with one of them, and inside
    a sentence no whitespace follows one of them. *)
Theorem split_sentences_boundaries (t : string) (pg : option Z) :
  let ss := split_sentences t pg in
  (forall k, (S k < List.length ss)%nat ->
     exists q c,
       text (nth k ss (mkSentence EmptyString None))
         = (q ++ String c EmptyString)%string /\
       is_stop c = true) /\
  (forall s a c1 c2 r,
     In s ss -> text s = (a ++ String c1 (String c2 r))%string ->
     is_stop c1 = true -> is_space c2 = false).
Proof.
  intros ss. unfold ss.
  destruct (_clean_text t) as [|c0 r0] eqn:E.
  { unfold split_sentences. rewrite E. simpl.
    split; [intros k Hk; lia | intros s a c1 c2 r []]. }
  destruct (split_sentences_pieces t pg) as [-> _]; [congruence|].
  destruct (sentence_split_stops (_clean_text t) Plain)
    as (h & tl & -> & Hlast & Hinit & Hnb & Htl).
  split.
  - intros k. rewrite length_map. intros Hk.
    assert (Hnth : text (nth k (map (fun p => mkSentence p pg) (h :: tl))
                           (mkSentence EmptyString None))
                   = nth k (h :: tl) EmptyString).
    { apply nth_map_text. simpl in *. lia. }
    rewrite Hnth.
    assert (Hs : last_stop false (nth k (h :: tl) EmptyString) = true).
    { destruct k as [|k]; simpl in *.
      - apply Hlast. destruct tl; [simpl in Hk; lia | discriminate].
      - apply Hinit. lia. }
    destruct (last_stop_spec _ _ Hs) as [[_ Hf] | Hq]; [discriminate|].
    exact Hq.
  - intros s a c1 c2 r Hin Etext. apply in_map_iff in Hin.
    destruct Hin as (p & <- & Hp). cbn [text] in Etext.
    assert (Hb : no_boundary false p = true).
    { destruct Hp as [<- | Hp]; [exact Hnb|].
      rewrite Forall_forall in Htl. now apply Htl. }
    eapply no_boundary_spec; eauto.
Qed.

Lemma split_sentences_boundaries_witness :
  exists q c, "Hi there." = (q ++ String c EmptyString)%string /\
              is_stop c = true.
Proof.
  destruct (split_sentences_boundaries "  Hi there.  How are you? Fine!" None)
    as [Hend _].
  apply (Hend 0%nat). vm_compute. lia.
Defined.

(** X4. [_clean_text] is idempotent, and what it returns has no NUL and
    no whitespace but single spaces between other characters. *)
Theorem clean_text_idempotent (t : string) :
  _clean_text (_clean_text t) = _clean_text t /\
  tidy (_clean_text t) = true.
Proof.
  pose proof (clean_text_tidy t) as Ht. split; [|exact Ht].
  destruct (_clean_text t) as [|c r] eqn:E; [reflexivity|].
  unfold tidy in Ht. unfold _clean_text at 1.
  rewrite (tidy_from_replace_nul _ _ Ht).
  rewrite (tidy_from_sub_ws _ false)
    by (destruct (tidy_from_true_head _ Ht) as (c' & r' & [= <- <-] & Hc);
        simpl in *; now rewrite Hc in *).
  apply tidy_strip. exact Ht.
Qed.

Lemma rstrip_empty_iff (s : string) :
  rstrip s = EmptyString <-> all_chars is_space s = true.
Proof.
  induction s as [|c r IH]; simpl; [tauto|].
  destruct (rstrip r) as [|c' r'].
  - destruct (is_space c); simpl.
    + rewrite <- IH. tauto.
    + split; discriminate.
  - split; [discriminate|]. intros H. apply andb_true_iff in H.
    destruct H as [_ H]. apply IH in H. discriminate.
Qed.

Lemma lstrip_all_space (s : string) :
  all_chars is_space (lstrip s) = all_chars is_space s.
Proof.
  induction s as [|c r IH]; simpl; [reflexivity|].
  destruct (is_space c) eqn:Hc; simpl; [exact IH | now rewrite Hc].
Qed.

(** [s.strip()] is empty exactly when [s] is all whitespace. *)
Lemma strip_empty_iff (s : string) :
  strip s = EmptyString <-> all_chars is_space s = true.
Proof. unfold strip. now rewrite rstrip_empty_iff, lstrip_all_space. Qed.

Lemma sub_ws_all_space (s : string) :
  forall b,
    all_chars is_space (sub_ws b (replace_nul s)) = all_chars is_blank s.
Proof.
  induction s as [|c r IH]; intros b; simpl; [reflexivity|].
  unfold is_blank at 1.
  destruct (Ascii.eqb_spec c zero) as [-> | Hne].
  - rewrite is_space_space. simpl. destruct b; simpl; apply IH.
  - rewrite orb_false_r. destruct (is_space c) eqn:Hc.
    + destruct b; simpl; apply IH.
    + simpl. now rewrite Hc.
Qed.

Lemma clean_text_empty_iff (t : string) :
  _clean_text t = EmptyString <-> all_chars is_blank t = true.
Proof.
  unfold _clean_text. now rewrite strip_empty_iff, sub_ws_all_space.
Qed.

Lemma split_sentences_nil_iff (t : string) (pg : option Z) :
  split_sentences t pg = [] <-> _clean_text t = EmptyString.
Proof.
  split.
  - intros H. destruct (_clean_text t) as [|c r] eqn:E; [reflexivity|].
    destruct (split_sentences_pieces t pg) as [Hss _]; [congruence|].
    rewrite Hss in H. apply map_eq_nil in H.
    now apply sentence_split_nonempty in H.
  - intros E. unfold split_sentences. now rewrite E.
Qed.

(** X5. [split_sentences] returns no sentence exactly when every
    character of the text is whitespace or NUL, the empty text
    included. *)
Theorem split_sentences_empty_iff (t : string) (pg : option Z) :
  split_sentences t pg = [] <-> all_chars is_blank t = true.
Proof. now rewrite split_sentences_nil_iff, clean_text_empty_iff. Qed.

Lemma StronglySorted_app {A : Type} (R : A -> A -> Prop) (l1 l2 : list A) :
  StronglySorted R l1 -> StronglySorted R l2 ->
  (forall x y, In x l1 -> In y l2 -> R x y) ->
  StronglySorted R (l1 ++ l2).
Proof.
  induction 1 as [|a l1 Hs IH Ha]; intros H2 Hx; simpl; [assumption|].
  constructor.
  - apply IH; [assumption|]. intros x y Hin. apply Hx. now right.
  - apply Forall_app. split; [assumption|].
    apply Forall_forall. intros y Hy. apply Hx; [now left | assumption].
Qed.

Lemma StronglySorted_const {A : Type} (f : A -> Z) (k : Z) (l : list A) :
  (forall x, In x l -> f x = k) -> StronglySorted Z.le (map f l).
Proof.
  induction l as [|a l IH]; intros H; simpl; constructor.
  - apply IH. intros x Hx. apply H. now right.
  - apply Forall_forall. intros y Hy. apply in_map_iff in Hy.
    destruct Hy as (x & <- & Hx).
    rewrite (H a (or_introl eq_refl)), (H x (or_intror Hx)). lia.
Qed.

Lemma parse_pdf_loop_spec (pages : list (option string)) :
  forall i all_sentences,
  exists new,
    parse_pdf_loop i pages all_sentences = all_sentences ++ new /\
    StronglySorted Z.le (map page_num new) /\
    (forall s, In s new ->
       exists k txt,
         nth_error pages k = Some txt /\
         page s = Some (Z.of_nat (i + k) + 1) /\
         In s (split_sentences
                 (match txt with Some t => t | None => EmptyString end)
                 (Some (Z.of_nat (i + k) + 1)))).
Proof.
  induction pages as [|p rest IH]; intros i all_sentences; simpl.
  - exists []. rewrite app_nil_r. repeat split; [constructor | intros s []].
  - destruct (IH (S i)
                (all_sentences ++
                 split_sentences
                   (match p with Some t => t | None => EmptyString end)
                   (Some (Z.of_nat i + 1))))
      as (new & -> & Hsorted & Hfrom).
    set (blk := split_sentences
                  (match p with Some t => t | None => EmptyString end)
                  (Some (Z.of_nat i + 1))) in *.
    assert (Hblk : forall s, In s blk -> page_num s = Z.of_nat i + 1).
    { intros s Hs. unfold page_num.
      destruct (sentence_wellformed _ _ _ Hs) as (_ & _ & ->).
      reflexivity. }
    exists (blk ++ new). rewrite app_assoc. split; [reflexivity|]. split.
    + rewrite map_app. apply StronglySorted_app; auto.
      * now apply StronglySorted_const with (k := Z.of_nat i + 1).
      * intros x y Hx Hy. apply in_map_iff in Hx, Hy.
        destruct Hx as (sx & <- & Hsx). destruct Hy as (sy & <- & Hsy).
        rewrite (Hblk sx Hsx).
        destruct (Hfrom sy Hsy) as (k & txt & _ & Hpg & _).
        unfold page_num. rewrite Hpg. lia.
    + intros s Hs. apply in_app_iff in Hs. destruct Hs as [Hs | Hs].
      * exists 0%nat, p. rewrite Nat.add_0_r.
        destruct (sentence_wellformed _ _ _ Hs) as (_ & _ & Hpg).
        repeat split; auto.
      * destruct (Hfrom s Hs) as (k & txt & Hk & Hpg & Hin).
        exists (S k), txt.
        replace (i + S k)%nat with (S i + k)%nat by lia. auto.
Qed.

(** X6. [parse_pdf], from the extracted page texts on: the page count is
    the number of pages; every sentence has the 1-based number of the
    page whose text it was cut from, between 1 and the page count; and
    the page numbers never decrease along the sentence list. *)
Theorem parse_pdf_pages_spec (pages : list (option string)) :
  let '(ss, n) := parse_pdf_pages pages in
  n = Z.of_nat (List.length pages) /\
  StronglySorted Z.le (map page_num ss) /\
  (forall s, In s ss ->
     exists k txt,
       nth_error pages k = Some txt /\
       page s = Some (Z.of_nat k + 1) /\ 1 <= Z.of_nat k + 1 <= n /\
       In s (split_sentences
               (match txt with Some t => t | None => EmptyString end)
               (Some (Z.of_nat k + 1)))).
Proof.
  unfold parse_pdf_pages.
  destruct (parse_pdf_loop_spec pages 0 []) as (new & -> & Hsorted & Hfrom).
  simpl. split; [reflexivity|]. split; [exact Hsorted|].
  intros s Hs. destruct (Hfrom s Hs) as (k & txt & Hk & Hpg & Hin).
  exists k, txt. simpl in Hpg, Hin. repeat split; auto; try lia.
  assert (k < List.length pages)%nat by (apply nth_error_Some; congruence).
  lia.
Qed.

Lemma parse_pdf_pages_spec_witness :
  exists k txt,
    nth_error [Some "A. B."; None; Some "C"] k = Some txt /\
    Some 3 = Some (Z.of_nat k + 1).
Proof.
  pose proof (parse_pdf_pages_spec [Some "A. B."; None; Some "C"]) as H.
  cbv zeta in H. vm_compute parse_pdf_pages in H.
  destruct H as (_ & _ & Hfrom).
  destruct (Hfrom (mkSentence "C" (Some 3))) as (k & txt & Hk & Hpg & _).
  - simpl. auto.
  - exists k, txt. split; [exact Hk | exact Hpg].
Defined.

End Segmenter.

(** ** Decimal strings and page labels *)

Module Labels.
Import Py.

Lemma to_int_proper (n : Z) :
  Z.to_int n <> Decimal.Pos Decimal.Nil /\
  Z.to_int n <> Decimal.Neg Decimal.Nil.
Proof.
  destruct n as [|q|q]; simpl; split; try discriminate;
    intros [= E]; now apply Unsigned.to_uint_nonnil in E.
Qed.

(** [str] of an integer can be read back. *)
Lemma str_parse (n : Z) : NilZero.int_of_string (str n) = Some (Z.to_int n).
Proof. unfold str. apply NilZero.isi; apply to_int_proper. Qed.

Lemma str_inj (n m : Z) : str n = str m -> n = m.
Proof.
  intros E. apply DecimalZ.to_int_inj.
  pose proof (str_parse n) as Hn. rewrite E, str_parse in Hn. congruence.
Qed.

Lemma str_nonempty (n : Z) : str n <> EmptyString.
Proof.
  intros E. pose proof (str_parse n) as H. rewrite E in H. discriminate.
Qed.

Lemma append_nonempty_l (a b : string) :
  a <> EmptyString -> (a ++ b)%string <> EmptyString.
Proof. destruct a; [congruence | discriminate]. Qed.

Lemma append_inj_l (a b c : string) : (a ++ b = a ++ c)%string -> b = c.
Proof. induction a as [|x a IH]; simpl; [auto|]. intros [= E]. auto. Qed.

Lemma page_range_empty_iff (pages : list Z) :
  _page_range pages = EmptyString <-> pages = [].
Proof.
  split; [|now intros ->].
  unfold _page_range.
  destruct (sorted_set pages) as [|p0 [|p1 r]] eqn:E.
  - intros _. now apply PyFacts.sorted_set_nil.
  - intros H. now apply str_nonempty in H.
  - destruct (consecutive (p0 :: p1 :: r)).
    + intros H. apply append_nonempty_l in H; [easy | apply str_nonempty].
    + change (join "," (map str (p0 :: p1 :: r)))
        with (str p0 ++ "," ++ join "," (map str (p1 :: r)))%string.
      intros H. apply append_nonempty_l in H; [easy | apply str_nonempty].
Qed.

(** Two strictly increasing lists with the same elements are equal. *)
Lemma sorted_unique (l1 : list Z) :
  forall l2,
    StronglySorted Z.lt l1 -> StronglySorted Z.lt l2 ->
    (forall x, In x l1 <-> In x l2) -> l1 = l2.
Proof.
  induction l1 as [|a l1 IH]; intros l2 H1 H2 Hin.
  - destruct l2 as [|b l2]; [reflexivity|].
    destruct (proj2 (Hin b) (or_introl eq_refl)).
  - destruct l2 as [|b l2].
    + destruct (proj1 (Hin a) (or_introl eq_refl)).
    + inversion H1 as [|? ? Hs1 Ha]. inversion H2 as [|? ? Hs2 Hb]. subst.
      rewrite Forall_forall in Ha, Hb.
      assert (a = b).
      { destruct (proj1 (Hin a) (or_introl eq_refl)) as [E | Hal2]; [auto|].
        destruct (proj2 (Hin b) (or_introl eq_refl)) as [E | Hbl1]; [auto|].
        specialize (Ha b Hbl1). specialize (Hb a Hal2). lia. }
      subst b. f_equal. apply IH; auto.
      intros x. split; intros Hx.
      * destruct (proj1 (Hin x) (or_intror Hx)) as [E | H]; [|exact H].
        subst x. specialize (Ha a Hx). lia.
      * destruct (proj2 (Hin x) (or_intror Hx)) as [E | H]; [|exact H].
        subst x. specialize (Hb a Hx). lia.
Qed.

(** X7. The page label depends only on the set of pages: lists with the
    same elements, in any order and with any repetitions, get the same
    label. *)
Theorem page_range_set (l1 l2 : list Z) :
  (forall x, In x l1 <-> In x l2) -> _page_range l1 = _page_range l2.
Proof.
  intros Hin. unfold _page_range.
  rewrite (sorted_unique (sorted_set l1) (sorted_set l2));
    auto using PyFacts.sorted_set_sorted.
  intros x. now rewrite !PyFacts.sorted_set_In.
Qed.

Lemma page_range_set_witness :
  _page_range [5; 3; 4; 3] = _page_range [3; 4; 5].
Proof.
  apply page_range_set. intros x. simpl. intuition.
Defined.

Lemma finalize_label (file_name : string) (current : list Sentence)
    (n : Z) :
  let c := finalize file_name current n in
  page_number c <> EmptyString /\
  (pages_of current = [] -> page_number c = str n) /\
  (pages_of current <> [] -> page_number c = _page_range (pages_of current)).
Proof.
  cbv zeta. unfold finalize. cbn [page_number]. fold (pages_of current).
  destruct (_page_range (pages_of current)) as [|c r] eqn:E.
  - apply page_range_empty_iff in E. cbn [truthy].
    split; [apply str_nonempty|]. split; [reflexivity | congruence].
  - cbn [truthy]. split; [discriminate|]. split; [|reflexivity].
    intros Hnil. rewrite Hnil in E. discriminate.
Qed.

(** X8. The page label that [finalize] gives a chunk is never empty: it
    is the page range of the pages its sentences carry and, exactly when
    none of them carries a page, the chunk number. *)
Theorem finalize_page_label (file_name : string) (current : list Sentence)
    (n : Z) :
  let c := finalize file_name current n in
  page_number c <> EmptyString /\
  (pages_of current = [] -> page_number c = str n) /\
  (pages_of current <> [] -> page_number c = _page_range (pages_of current)).
Proof. apply finalize_label. Qed.

Lemma finalize_page_label_witness :
  page_number (finalize "doc" [mkSentence "A." None] 7) = "7" /\
  page_number
    (finalize "doc" [mkSentence "A." (Some 3); mkSentence "B." (Some 4)] 7)
  = "3-4".
Proof.
  split.
  - apply (finalize_page_label "doc" [mkSentence "A." None] 7). reflexivity.
  - apply (finalize_page_label "doc"
             [mkSentence "A." (Some 3); mkSentence "B." (Some 4)] 7).
    discriminate.
Defined.

End Labels.

(** ** More on whole runs of the chunker *)

Lemma all_chars_app (P : ascii -> bool) (a b : string) :
  all_chars P (a ++ b) = all_chars P a && all_chars P b.
Proof.
  induction a as [|c a IH]; simpl; [reflexivity|].
  now rewrite IH, andb_assoc.
Qed.

Lemma all_chars_join (P : ascii -> bool) (sep : string) (l : list string) :
  all_chars P (Py.join sep l) = true ->
  forall p, In p l -> all_chars P p = true.
Proof.
  induction l as [|a [|b l] IH]; intros H p Hp.
  - destruct Hp.
  - destruct Hp as [<- | []]. exact H.
  - change (Py.join sep (a :: b :: l))
      with (a ++ sep ++ Py.join sep (b :: l))%string in H.
    rewrite !all_chars_app in H.
    apply andb_true_iff in H. destruct H as [Ha H].
    apply andb_true_iff in H. destruct H as [_ H].
    destruct Hp as [<- | Hp]; [exact Ha | now apply IH].
Qed.

(** A chunk built from at least one sentence that is not blank has a raw
    text that is not empty. *)
Lemma finalize_raw_nonempty (fn : string) (l : list Sentence) (n : Z)
    (x : Sentence) :
  In x l -> Py.strip (text x) <> EmptyString ->
  raw_text (finalize fn l n) <> EmptyString.
Proof.
  intros Hx Hne. unfold finalize. cbn [raw_text]. intros E.
  apply Segmenter.strip_empty_iff in E.
  apply Hne. apply Segmenter.strip_empty_iff.
  apply (all_chars_join _ _ _ E). now apply in_map.
Qed.

Lemma number_from_Forall (fn : string) (Q : Group -> Prop)
    (R : Chunk -> Prop) (gs : list Group) :
  (forall g k, Q g -> R (finalize fn (g_sents g) k)) ->
  Forall Q gs -> forall k, Forall R (number_from fn k gs).
Proof.
  intros HQR. induction 1 as [|g gs Hg _ IH]; intros k; simpl;
    constructor; auto.
Qed.

Lemma nth_error_number_from (fn : string) (gs : list Group) :
  forall k j g,
    nth_error gs j = Some g ->
    nth_error (number_from fn k gs) j
    = Some (finalize fn (g_sents g) (k + Z.of_nat j)).
Proof.
  induction gs as [|g0 gs IH]; intros k [|j] g; simpl; try discriminate.
  - intros [= ->]. now rewrite Z.add_0_r.
  - intros H. rewrite (IH (k + 1) j g H). do 2 f_equal. lia.
Qed.

Section SplitPieces.
Context `{tk : Tokenizer}.

(** Every piece the splitter's loop appends is trimmed and not empty. *)
Lemma split_loop_pieces (toks : list Z) (T step : Z) :
  forall fuel start pieces out,
    Forall (fun p => p <> EmptyString /\ Py.strip p = p) pieces ->
    split_loop fuel toks T step start pieces = Some out ->
    Forall (fun p => p <> EmptyString /\ Py.strip p = p) out.
Proof.
  induction fuel as [|fuel IH]; intros start pieces out Hp; simpl.
  - destruct (start <? _); [discriminate|]. now intros [= <-].
  - destruct (start <? _); [|now intros [= <-]].
    set (piece := Py.strip (decode (Py.slice toks start _))).
    assert (Hp' : Forall (fun p => p <> EmptyString /\ Py.strip p = p)
                    (if Py.truthy piece then pieces ++ [piece] else pieces)).
    { destruct piece as [|c r] eqn:E; simpl; [exact Hp|].
      apply Forall_app. split; [exact Hp|]. constructor; [|constructor].
      split; [discriminate|]. rewrite <- E. apply PyFacts.strip_idem. }
    destruct (_ =? _); [now intros [= <-]|]. now apply IH.
Qed.

Lemma split_text_pieces (t : string) (T O : Z) (parts : list string) :
  T < _tok_len t ->
  _split_text_by_tokens t T O = Some parts ->
  Forall (fun p => p <> EmptyString /\ Py.strip p = p) parts.
Proof.
  unfold _split_text_by_tokens, _tok_len. intros Hbig.
  destruct (Z.leb_spec (Z.of_nat (List.length (encode t))) T); [lia|].
  now apply split_loop_pieces.
Qed.

End SplitPieces.

Section MoreRuns.
Context `{tk : Tokenizer}.
Variables (sentences : list Sentence) (file_name : string) (T O : Z).

Let gs := chunk_groups sentences file_name T O.

(** The sentences of a chunk under construction and of every finalized
    chunk are not blank, and no finalized chunk is without sentences. *)
Lemma groups_solid :
  forall chunks,
    chunk_sentences sentences file_name T O = Some chunks ->
    Forall (fun g => g_sents g <> [] /\
                     forall x, In x (g_sents g) ->
                               Py.strip (text x) <> EmptyString) gs.
Proof.
  intros chunks Hret. unfold gs.
  unfold chunk_sentences, chunk_sentences_fuel in Hret.
  destruct (chunk_loop _ file_name T O sentences init_state)
    as [st|] eqn:Hrun; [|discriminate].
  set (solid := fun g : Group =>
         g_sents g <> [] /\
         forall x, In x (g_sents g) -> Py.strip (text x) <> EmptyString).
  destruct (run_invariant sentences file_name T O
              (fun st gh =>
                 (forall x, In x (cur st) ->
                            Py.strip (text x) <> EmptyString) /\
                 Forall solid (groups gh)) st)
    as ((Hcur & Hgs) & -> & _).
  - split; [intros x [] | constructor].
  - intros s st0 gh st' gh' Hs [Hc Hg] Hstep.
    assert (Hflush : Forall solid (groups gh ++ flush_groups st0 gh)).
    { apply Forall_app. split; [exact Hg|]. unfold flush_groups.
      destruct (cur st0) eqn:E; simpl; constructor; [|constructor].
      split; [discriminate | exact Hc]. }
    destruct Hstep; cbn [cur groups advance].
    + auto.
    + destruct (emit_parts_spec file_name (page s) parts
                  (flush file_name st0)) as (_ & -> & _).
      destruct (flush_spec file_name st0 gh) as (_ & -> & _).
      split; [intros x []|].
      rewrite app_assoc. apply Forall_app. split; [exact Hflush|].
      pose proof (split_text_pieces _ _ _ _ H0 H1) as Hparts.
      unfold piece_groups. apply Forall_map.
      eapply Forall_impl; [|exact Hparts].
      intros p [Hne Hp]. split; [discriminate|].
      intros x [<- | []]. cbn [text]. now rewrite Hp.
    + destruct (next_seed_suffix O (cur st0) (cur_toks st0)) as (pre & Hpre).
      split.
      * intros x Hx. apply Hc. rewrite Hpre. apply in_or_app. now right.
      * apply Forall_app. split; [exact Hg|]. constructor; [|constructor].
        split; [assumption | exact Hc].
    + split; [|exact Hg]. intros x Hx. apply in_app_iff in Hx.
      destruct Hx as [Hx | [<- | []]]; auto.
  - exact Hrun.
  - apply Forall_app. split; [exact Hgs|]. unfold flush_groups.
    destruct (cur st) eqn:E; simpl; constructor; [|constructor].
    split; [discriminate | exact Hcur].
Qed.

End MoreRuns.

(** X9. No chunk is empty: for a positive target budget every returned
    chunk is built from at least one sentence, and its raw text and its
    page label are not empty. *)
Theorem chunks_never_empty `{tk : Tokenizer}
    (sentences : list Sentence) (file_name : string) (T O : Z) :
  0 < T ->
  exists chunks,
    chunk_sentences sentences file_name T O = Some chunks /\
    Forall (fun g => g_sents g <> [])
      (chunk_groups sentences file_name T O) /\
    Forall (fun c => raw_text c <> EmptyString /\
                     page_number c <> EmptyString) chunks.
Proof.
  intros HT.
  destruct (chunk_sentences_returns sentences file_name T O HT)
    as (st & _ & Hret).
  exists (finish file_name st). split; [exact Hret|].
  pose proof (groups_solid sentences file_name T O _ Hret) as Hsolid.
  split.
  - eapply Forall_impl; [|exact Hsolid]. now intros g [Hne _].
  - rewrite (chunk_sentences_groups _ _ _ _ _ Hret).
    eapply number_from_Forall; [|exact Hsolid].
    intros g k [Hne Hall]. split.
    + destruct (g_sents g) as [|x l] eqn:E; [congruence|].
      apply (finalize_raw_nonempty file_name (x :: l) k x); [now left|].
      apply Hall. now left.
    + apply Labels.finalize_label.
Qed.

Lemma chunks_never_empty_witness :
  exists chunks,
    @chunk_sentences char_tokenizer
      [mkSentence "  " None; mkSentence "1.2.3" None] "doc" 3 1
    = Some chunks /\
    map raw_text chunks = ["1.2"; "2.3"].
Proof.
  destruct (@chunks_never_empty char_tokenizer
              [mkSentence "  " None; mkSentence "1.2.3" None] "doc" 3 1)
    as (chunks & Hrun & _); [lia|].
  exists chunks. split; [exact Hrun|].
  vm_compute in Hrun. injection Hrun as <-. reflexivity.
Defined.

Section GroupInvariants.
Context `{tk : Tokenizer}.
Variables (sentences : list Sentence) (file_name : string) (T O : Z).

(** A property of state and history that every iteration keeps decides a
    property of all groups of the run. *)
Lemma run_groups (P : State -> Ghost -> Prop) (Q : list Group -> Prop) :
  P init_state init_ghost ->
  (forall s st gh st' gh',
      nth_error sentences (i st) = Some s ->
      P st gh -> step file_name T O s st gh st' gh' -> P st' gh') ->
  (forall st gh,
      P st gh -> (List.length sentences <= i st)%nat ->
      Q (groups gh ++ flush_groups st gh)) ->
  forall chunks,
    chunk_sentences sentences file_name T O = Some chunks ->
    Q (chunk_groups sentences file_name T O).
Proof.
  intros H0 Hstep Hfin chunks Hret.
  unfold chunk_sentences, chunk_sentences_fuel in Hret.
  destruct (chunk_loop _ file_name T O sentences init_state)
    as [st|] eqn:Hrun; [|discriminate].
  destruct (run_invariant sentences file_name T O P st H0 Hstep Hrun)
    as (HP & -> & Hend).
  now apply Hfin.
Qed.

Lemma filter_firstn_succ (f : Sentence -> bool) (k : nat) (s : Sentence) :
  nth_error sentences k = Some s ->
  filter f (firstn (S k) sentences) =
  filter f (firstn k sentences) ++ (if f s then [s] else []).
Proof.
  intros Hs. rewrite (firstn_succ_nth _ _ _ Hs), filter_app. simpl.
  now destruct (f s).
Qed.

(** Sentences without page give chunks without page. *)
Lemma groups_pageless :
  (forall s, In s sentences -> page s = None) ->
  forall chunks,
    chunk_sentences sentences file_name T O = Some chunks ->
    Forall (fun g => pages_of (g_sents g) = [])
      (chunk_groups sentences file_name T O).
Proof.
  intros Hnone.
  assert (Hpl : forall l, (forall x, In x l -> page x = None) ->
                          pages_of l = []).
  { induction l as [|a l IH]; intros H; [reflexivity|].
    unfold pages_of in *. simpl. rewrite (H a (or_introl eq_refl)).
    apply IH. intros x Hx. apply H. now right. }
  apply (run_groups
           (fun st gh =>
              (forall x, In x (cur st) -> page x = None) /\
              Forall (fun g => pages_of (g_sents g) = []) (groups gh))).
  - split; [intros x [] | constructor].
  - intros s st gh st' gh' Hs [Hc Hg] Hstep.
    assert (Hps : page s = None) by (eapply Hnone, nth_error_In; eauto).
    assert (Hflush : Forall (fun g => pages_of (g_sents g) = [])
                       (groups gh ++ flush_groups st gh)).
    { apply Forall_app. split; [exact Hg|]. unfold flush_groups.
      destruct (Py.nonempty (cur st)); constructor; [|constructor].
      now apply Hpl. }
    destruct Hstep; cbn [cur groups advance].
    + auto.
    + destruct (emit_parts_spec file_name (page s) parts
                  (flush file_name st)) as (_ & -> & _).
      destruct (flush_spec file_name st gh) as (_ & -> & _).
      split; [intros x []|].
      rewrite app_assoc. apply Forall_app. split; [exact Hflush|].
      unfold piece_groups. apply Forall_map, Forall_forall.
      intros p _. cbn [g_sents]. unfold pages_of. simpl. now rewrite Hps.
    + destruct (next_seed_suffix O (cur st) (cur_toks st)) as (pre & Hpre).
      split.
      * intros x Hx. apply Hc. rewrite Hpre. apply in_or_app. now right.
      * apply Forall_app. split; [exact Hg|]. constructor; [|constructor].
        now apply Hpl.
    + split; [|exact Hg]. intros x Hx. apply in_app_iff in Hx.
      destruct Hx as [Hx | [<- | []]]; auto.
  - intros st gh [Hc Hg] _. apply Forall_app. split; [exact Hg|].
    unfold flush_groups.
    destruct (Py.nonempty (cur st)); constructor; [|constructor].
    now apply Hpl.
Qed.

(** The accumulator and every chunk that is no splitter piece are runs of
    consecutive kept sentences. *)
Lemma groups_contiguous :
  forall chunks,
    chunk_sentences sentences file_name T O = Some chunks ->
    Forall (fun g => g_split g = false ->
                     exists a b,
                       filter (fits T) sentences = a ++ g_sents g ++ b)
      (chunk_groups sentences file_name T O).
Proof.
  set (F := fun k => filter (fits T) (firstn k sentences)).
  set (infix := fun k (g : Group) =>
         g_split g = false -> exists a b, F k = a ++ g_sents g ++ b).
  apply (run_groups
           (fun st gh =>
              (exists pre, F (i st) = pre ++ cur st) /\
              Forall (infix (i st)) (groups gh))).
  - split; [now exists [] | constructor].
  - intros s st gh st' gh' Hs [[pre Hc] Hg] Hstep.
    assert (Hgrow : forall g, infix (i st) g -> infix (S (i st)) g).
    { intros g Hi Hsp. destruct (Hi Hsp) as (a & b & E).
      unfold F in *. rewrite (filter_firstn_succ _ _ _ Hs), E.
      exists a, (b ++ (if fits T s then [s] else [])).
      now rewrite <- !app_assoc. }
    assert (Hself : infix (i st) (mkGroup (cur st) (seed gh) false)).
    { intros _. exists pre, []. now rewrite app_nil_r. }
    assert (Hflush : Forall (infix (i st)) (groups gh ++ flush_groups st gh)).
    { apply Forall_app. split; [exact Hg|]. unfold flush_groups.
      destruct (Py.nonempty (cur st)); constructor; [exact Hself|constructor]. }
    destruct Hstep; cbn [i cur groups advance].
    + assert (Hf : fits T s = false) by (unfold fits; now rewrite H).
      split.
      * exists pre. unfold F in *.
        now rewrite (filter_firstn_succ _ _ _ Hs), Hf, app_nil_r.
      * eapply Forall_impl; [exact Hgrow | exact Hg].
    + destruct (emit_parts_spec file_name (page s) parts
                  (flush file_name st)) as (-> & -> & _).
      destruct (flush_spec file_name st gh) as (-> & -> & _).
      split; [exists (F (S (i st))); now rewrite app_nil_r|].
      rewrite app_assoc. apply Forall_app. split.
      * eapply Forall_impl; [exact Hgrow | exact Hflush].
      * unfold piece_groups. apply Forall_map, Forall_forall.
        intros p _ Hsp. discriminate Hsp.
    + destruct (next_seed_suffix O (cur st) (cur_toks st)) as (pre2 & Hpre).
      split.
      * exists (pre ++ pre2). rewrite <- app_assoc, <- Hpre. exact Hc.
      * apply Forall_app. split; [exact Hg|].
        constructor; [exact Hself | constructor].
    + assert (Hf : fits T s = true).
      { unfold fits. destruct (Py.strip (text s)); [congruence|]. simpl.
        destruct (Z.gtb_spec (_tok_len (String a s0)) T); [lia | reflexivity]. }
      split.
      * exists pre. unfold F in *.
        now rewrite (filter_firstn_succ _ _ _ Hs), Hf, Hc, app_assoc.
      * eapply Forall_impl; [exact Hgrow | exact Hg].
  - intros st gh [[pre Hc] Hg] Hend.
    assert (HF : F (i st) = filter (fits T) sentences)
      by (unfold F; now rewrite firstn_all2).
    apply Forall_app. split.
    + eapply Forall_impl; [|exact Hg]. intros g Hi Hsp.
      destruct (Hi Hsp) as (a & b & E). exists a, b. now rewrite <- HF.
    + unfold flush_groups.
      destruct (Py.nonempty (cur st)); constructor; [|constructor].
      intros _. exists pre, []. now rewrite app_nil_r, <- HF.
Qed.

End GroupInvariants.

(** X10. For sentences without page numbers, as the text and
    word-processor parsers give them, the page label of every chunk is its
    own chunk number. *)
Theorem pageless_labels `{tk : Tokenizer}
    (sentences : list Sentence) (file_name : string) (T O : Z) :
  0 < T ->
  (forall s, In s sentences -> page s = None) ->
  exists chunks,
    chunk_sentences sentences file_name T O = Some chunks /\
    Forall (fun c => page_number c = Py.str (chunk_number c)) chunks.
Proof.
  intros HT Hnone.
  destruct (chunk_sentences_returns sentences file_name T O HT)
    as (st & _ & Hret).
  exists (finish file_name st). split; [exact Hret|].
  rewrite (chunk_sentences_groups _ _ _ _ _ Hret).
  eapply number_from_Forall;
    [|exact (groups_pageless sentences file_name T O Hnone _ Hret)].
  intros g k Hg. cbv beta in Hg.
  now apply (Labels.finalize_label file_name (g_sents g) k).
Qed.

Lemma pageless_labels_witness :
  exists chunks,
    @chunk_sentences char_tokenizer
      (split_sentences "1.2.3 4.5 6.7.8.9.0" None) "doc" 10 5 = Some chunks /\
    map page_number chunks = ["1"; "2"; "3"].
Proof.
  destruct (@pageless_labels char_tokenizer
              (split_sentences "1.2.3 4.5 6.7.8.9.0" None) "doc" 10 5)
    as (chunks & Hrun & _); [lia | |].
  - intros s Hs. now apply Segmenter.sentence_wellformed in Hs.
  - exists chunks. split; [exact Hrun|].
    vm_compute in Hrun. injection Hrun as <-. reflexivity.
Defined.

(** X11. Chunks keep the order of the input: the sentences of every
    chunk that is no piece of the splitter are a run of consecutive
    sentences of the input, taken without its blank and its oversized
    sentences. *)
Theorem chunks_contiguous `{tk : Tokenizer}
    (sentences : list Sentence) (file_name : string) (T O : Z) :
  0 < T ->
  exists chunks,
    chunk_sentences sentences file_name T O = Some chunks /\
    forall g, In g (chunk_groups sentences file_name T O) ->
      g_split g = false ->
      exists a b, filter (fits T) sentences = a ++ g_sents g ++ b.
Proof.
  intros HT.
  destruct (chunk_sentences_returns sentences file_name T O HT)
    as (st & _ & Hret).
  exists (finish file_name st). split; [exact Hret|].
  pose proof (groups_contiguous sentences file_name T O _ Hret) as H.
  rewrite Forall_forall in H. exact H.
Qed.

Lemma chunks_contiguous_witness :
  exists chunks,
    @chunk_sentences char_tokenizer
      [mkSentence "1.2.3" None; mkSentence " " None; mkSentence "4.5" None;
       mkSentence "6.7.8.9.0" None] "doc" 10 5 = Some chunks /\
    map raw_text chunks = ["1.2.3 4.5"; "4.5"; "6.7.8.9.0"].
Proof.
  destruct (@chunks_contiguous char_tokenizer
              [mkSentence "1.2.3" None; mkSentence " " None;
               mkSentence "4.5" None; mkSentence "6.7.8.9.0" None]
              "doc" 10 5) as (chunks & Hrun & _); [lia|].
  exists chunks. split; [exact Hrun|].
  vm_compute in Hrun. injection Hrun as <-. reflexivity.
Defined.

Section Seeds.
Context `{tk : Tokenizer}.
Variables (sentences : list Sentence) (file_name : string) (T O : Z).

Lemma next_seed_cases (c : list Sentence) (t : Z) :
  next_seed O c t = ([], 0) \/ next_seed O c t = build_overlap O c.
Proof.
  unfold next_seed. destruct (build_overlap O c) as [ov ot].
  destruct (_ && _); auto.
Qed.

Lemma seeds_proper_app (a b : list Group) :
  forall prev,
    seeds_proper prev (a ++ b) <->
    seeds_proper prev a /\ seeds_proper (last_sents prev a) b.
Proof.
  induction a as [|g a IH]; intros prev; simpl.
  - tauto.
  - rewrite IH. unfold last_sents. simpl. tauto.
Qed.

Lemma seeds_proper_pieces (pg : option Z) (parts : list string) :
  forall prev, seeds_proper prev (piece_groups pg parts).
Proof.
  induction parts as [|p parts IH]; intros prev; simpl; auto.
Qed.

(** A seed of two or more sentences is within the overlap budget. *)
Lemma groups_seed_bound :
  forall chunks,
    chunk_sentences sentences file_name T O = Some chunks ->
    Forall (fun g => (2 <= g_seed g)%nat ->
                     walk_toks (firstn (g_seed g) (g_sents g)) <= O)
      (chunk_groups sentences file_name T O).
Proof.
  set (ok := fun (k : nat) (l : list Sentence) =>
         (2 <= k)%nat -> walk_toks (firstn k l) <= O).
  apply (run_groups sentences file_name T O
           (fun st gh =>
              (seed gh <= List.length (cur st))%nat /\
              ok (seed gh) (cur st) /\
              Forall (fun g => ok (g_seed g) (g_sents g)) (groups gh))).
  - split; [simpl; lia|]. split; [intros Hk; simpl in Hk; lia | constructor].
  - intros s st gh st' gh' Hs (Hle & Hok & Hg) Hstep.
    assert (Hflush : Forall (fun g => ok (g_seed g) (g_sents g))
                       (groups gh ++ flush_groups st gh)).
    { apply Forall_app. split; [exact Hg|]. unfold flush_groups.
      destruct (Py.nonempty (cur st)); constructor; [exact Hok|constructor]. }
    destruct Hstep; cbn [cur seed groups advance].
    + auto.
    + destruct (emit_parts_spec file_name (page s) parts
                  (flush file_name st)) as (_ & -> & _).
      destruct (flush_spec file_name st gh) as (_ & -> & _).
      split; [simpl; lia|]. split; [intros Hk; lia|].
      rewrite app_assoc. apply Forall_app. split; [exact Hflush|].
      unfold piece_groups. apply Forall_map, Forall_forall.
      intros p _ Hk. simpl in Hk. lia.
    + split; [lia|]. split.
      * intros Hk. rewrite firstn_all.
        destruct (next_seed_cases (cur st) (cur_toks st)) as [E | E];
          rewrite E in *; [simpl in Hk; lia|].
        destruct (build_overlap_spec O (cur st)) as (_ & _ & _ & _ & Hb & _).
        now apply Hb.
      * apply Forall_app. split; [exact Hg|].
        constructor; [exact Hok | constructor].
    + split; [rewrite length_app; lia|]. split; [|exact Hg].
      intros Hk. rewrite firstn_app.
      replace (seed gh - List.length (cur st))%nat with 0%nat by lia.
      simpl. rewrite app_nil_r. now apply Hok.
  - intros st gh (_ & Hok & Hg) _. apply Forall_app. split; [exact Hg|].
    unfold flush_groups.
    destruct (Py.nonempty (cur st)); constructor; [exact Hok|constructor].
Qed.

(** With trimmed sentence texts the accumulator's total is the total the
    overlap walk counts, and a kept seed is shorter than the chunk it
    comes from. *)
Lemma groups_seeds_proper :
  (forall s, In s sentences -> Py.strip (text s) = text s) ->
  forall chunks,
    chunk_sentences sentences file_name T O = Some chunks ->
    seeds_proper [] (chunk_groups sentences file_name T O).
Proof.
  intros Htrim.
  apply (run_groups sentences file_name T O
           (fun st gh =>
              cur_toks st = walk_toks (cur st) /\
              seeds_proper [] (groups gh) /\
              (seed gh = 0 \/
               seed gh < List.length (last_sents [] (groups gh)))%nat)).
  - repeat split; auto.
  - intros s st gh st' gh' Hs (Hacc & Hg & Hseed) Hstep.
    assert (Hflush : seeds_proper [] (groups gh ++ flush_groups st gh)).
    { apply seeds_proper_app. split; [exact Hg|]. unfold flush_groups.
      destruct (Py.nonempty (cur st)); simpl; auto. }
    destruct Hstep; cbn [cur cur_toks seed groups advance].
    + auto.
    + destruct (emit_parts_spec file_name (page s) parts
                  (flush file_name st)) as (_ & -> & -> & _).
      destruct (flush_spec file_name st gh) as (_ & Hc & _).
      rewrite Hc. split.
      * unfold flush. destruct (cur st) eqn:E; simpl; [|reflexivity].
        rewrite Hacc. reflexivity.
      * split; [|now left]. rewrite app_assoc.
        apply seeds_proper_app. split; [exact Hflush|].
        apply seeds_proper_pieces.
    + split; [apply next_seed_toks|]. split.
      * apply seeds_proper_app. split; [exact Hg|]. simpl. auto.
      * rewrite last_sents_app. unfold last_sents at 1. simpl.
        destruct (build_overlap_suffix O (cur st)) as (pre & Hpre & Ht).
        unfold next_seed.
        destruct (build_overlap O (cur st)) as [ov ot]. cbn [fst snd] in *.
        destruct (Nat.eqb_spec (List.length ov) (List.length (cur st)))
          as [Hlen | Hlen]; simpl.
        -- assert (pre = []).
           { rewrite Hpre, length_app in Hlen.
             destruct pre; [reflexivity | simpl in Hlen; lia]. }
           subst pre. simpl in Hpre.
           rewrite Ht, <- Hpre, <- Hacc, Z.eqb_refl. simpl. now left.
        -- right. apply (f_equal (@List.length _)) in Hpre.
           rewrite length_app in Hpre. lia.
    + split; [|split; [exact Hg | exact Hseed]].
      rewrite walk_toks_app, Hacc.
      rewrite (Htrim s) by (eapply nth_error_In; eauto).
      replace (walk_toks [s]) with (_tok_len (text s))
        by (unfold walk_toks, Py.sum; simpl; lia).
      reflexivity.
  - intros st gh (_ & Hg & Hseed) _.
    apply seeds_proper_app. split; [exact Hg|]. unfold flush_groups.
    destruct (Py.nonempty (cur st)); simpl; auto.
Qed.

(** The fresh sentences of the groups are what the loop makes of the
    input. *)
Lemma groups_cover :
  forall chunks,
    chunk_sentences sentences file_name T O = Some chunks ->
    List.concat (map fresh (chunk_groups sentences file_name T O))
    = flat_map (expand T O) sentences.
Proof.
  apply (run_groups sentences file_name T O (covered T O sentences)
           (fun gs => List.concat (map fresh gs)
                      = flat_map (expand T O) sentences)).
  - unfold covered. simpl. repeat split; auto. now exists [].
  - intros s st gh st' gh'. apply covered_step.
  - intros st gh (_ & _ & _ & Hcat) Hend.
    rewrite firstn_all2 in Hcat by exact Hend.
    now rewrite map_app, concat_app, flush_groups_fresh.
Qed.

End Seeds.

(** X12. A chunk starts with two or more carried-over sentences only if
    they have at most [O] tokens in total, as the overlap walk counts
    them. *)
Theorem seed_within_overlap `{tk : Tokenizer}
    (sentences : list Sentence) (file_name : string) (T O : Z) :
  0 < T ->
  exists chunks,
    chunk_sentences sentences file_name T O = Some chunks /\
    forall g, In g (chunk_groups sentences file_name T O) ->
      (2 <= g_seed g)%nat ->
      walk_toks (firstn (g_seed g) (g_sents g)) <= O.
Proof.
  intros HT.
  destruct (chunk_sentences_returns sentences file_name T O HT)
    as (st & _ & Hret).
  exists (finish file_name st). split; [exact Hret|].
  pose proof (groups_seed_bound sentences file_name T O _ Hret) as H.
  rewrite Forall_forall in H. exact H.
Qed.

Lemma seed_within_overlap_witness :
  exists chunks,
    @chunk_sentences char_tokenizer
      [mkSentence "1.2.3" None; mkSentence "4" None; mkSentence "5" None;
       mkSentence "6.7.8.9" None] "doc" 8 2 = Some chunks /\
    map g_seed
      (@chunk_groups char_tokenizer
         [mkSentence "1.2.3" None; mkSentence "4" None; mkSentence "5" None;
          mkSentence "6.7.8.9" None] "doc" 8 2) = [0; 2; 0]%nat.
Proof.
  destruct (@seed_within_overlap char_tokenizer
              [mkSentence "1.2.3" None; mkSentence "4" None;
               mkSentence "5" None; mkSentence "6.7.8.9" None] "doc" 8 2)
    as (chunks & Hrun & _); [lia|].
  exists chunks. split; [exact Hrun | vm_compute; reflexivity].
Defined.

(** X13. With trimmed sentence texts, as the segmenter gives them, no
    chunk repeats the whole chunk before it: every chunk carries over
    fewer sentences than the chunk before it holds. *)
Theorem trimmed_seeds_proper `{tk : Tokenizer}
    (sentences : list Sentence) (file_name : string) (T O : Z) :
  0 < T ->
  (forall s, In s sentences -> Py.strip (text s) = text s) ->
  exists chunks,
    chunk_sentences sentences file_name T O = Some chunks /\
    seeds_proper [] (chunk_groups sentences file_name T O) /\
    carried_ok [] (chunk_groups sentences file_name T O).
Proof.
  intros HT Htrim.
  destruct (chunk_sentences_returns sentences file_name T O HT)
    as (st & _ & Hret).
  exists (finish file_name st). split; [exact Hret|]. split.
  - exact (groups_seeds_proper sentences file_name T O Htrim _ Hret).
  - apply (run_groups sentences file_name T O (covered T O sentences)
             (carried_ok [])) with (chunks := finish file_name st).
    + unfold covered. simpl. repeat split; auto. now exists [].
    + intros s st0 gh st' gh'. apply covered_step.
    + intros st0 gh Hcov _. now apply (flush_groups_carried T O sentences).
    + exact Hret.
Qed.

Lemma trimmed_seeds_proper_witness :
  exists chunks,
    @chunk_sentences char_tokenizer
      (split_sentences "1. 2.3" None) "doc" 3 0 = Some chunks /\
    map raw_text chunks = ["1."; "2.3"].
Proof.
  destruct (@trimmed_seeds_proper char_tokenizer
              (split_sentences "1. 2.3" None) "doc" 3 0)
    as (chunks & Hrun & _); [lia | |].
  - intros s Hs. now apply Segmenter.sentence_wellformed in Hs.
  - exists chunks. split; [exact Hrun|].
    vm_compute in Hrun. injection Hrun as <-. reflexivity.
Defined.

(** X14. The last sentence of a finalized chunk of two or more sentences
    is carried over even when it alone has more than [O] tokens: the seed
    is then that sentence alone, so the carried tokens can exceed the
    overlap budget by one sentence. *)
Theorem overlap_keeps_last_sentence `{tk : Tokenizer} (O : Z)
    (pre : list Sentence) (x : Sentence) (prev_toks : Z) :
  pre <> [] ->
  O < _tok_len (text x) ->
  next_seed O (pre ++ [x]) prev_toks = ([x], _tok_len (text x)).
Proof.
  intros Hpre Hbig.
  assert (Hbo : build_overlap O (pre ++ [x]) = ([x], _tok_len (text x))).
  { unfold build_overlap. rewrite rev_app_distr. simpl.
    destruct (rev pre) as [|y r]; simpl; [reflexivity|].
    pose proof (tok_len_nonneg (text y)).
    destruct (Z.gtb_spec (_tok_len (text x) + _tok_len (text y)) O);
      [reflexivity | lia]. }
  unfold next_seed. rewrite Hbo.
  destruct (Nat.eqb_spec (List.length [x]) (List.length (pre ++ [x])))
    as [Hlen | Hlen]; [|reflexivity].
  rewrite length_app in Hlen. destruct pre; [congruence|].
  simpl in Hlen. lia.
Qed.

Lemma overlap_keeps_last_sentence_witness :
  @next_seed char_tokenizer 0
    [mkSentence "1." None; mkSentence "2." None] 4
  = ([mkSentence "2." None], 2).
Proof.
  apply (@overlap_keeps_last_sentence char_tokenizer 0
           [mkSentence "1." None] (mkSentence "2." None) 4).
  - discriminate.
  - vm_compute. reflexivity.
Defined.

Section SingleChunk.
Context `{tk : Tokenizer}.
Variables (sentences : list Sentence) (file_name : string) (T O : Z).

Hypothesis not_blank :
  forall s, In s sentences -> Py.strip (text s) <> EmptyString.
Hypothesis all_fit : trimmed_toks sentences <= T.

Lemma trimmed_prefix (k : nat) :
  trimmed_toks (firstn k sentences) <= trimmed_toks sentences.
Proof.
  rewrite <- (firstn_skipn k sentences) at 2. rewrite trimmed_toks_app.
  pose proof (trimmed_toks_nonneg (skipn k sentences)). lia.
Qed.

(** When everything fits, the loop only appends. *)
Lemma single_chunk_loop (m : nat) :
  forall k fuel,
    (k + m = List.length sentences)%nat -> (m <= fuel)%nat ->
    chunk_loop fuel file_name T O sentences
      {| i := k; cur := firstn k sentences;
         cur_toks := trimmed_toks (firstn k sentences);
         chunk_no := 1; chunks := [] |}
    = Some {| i := List.length sentences; cur := sentences;
              cur_toks := trimmed_toks sentences;
              chunk_no := 1; chunks := [] |}.
Proof.
  induction m as [|m IH]; intros k fuel Hk Hfuel.
  - rewrite chunk_loop_exit
      by (cbn [i]; apply nth_error_None; lia).
    replace k with (List.length sentences) by lia.
    now rewrite firstn_all.
  - destruct fuel as [|fuel]; [lia|].
    destruct (nth_error sentences k) as [s|] eqn:Hs;
      [|apply nth_error_None in Hs; lia].
    pose proof (trimmed_prefix (S k)) as Hpre.
    rewrite (firstn_succ_nth _ _ _ Hs), trimmed_toks_app in Hpre.
    assert (Ets : trimmed_toks [s] = _tok_len (Py.strip (text s)))
      by (unfold trimmed_toks, Py.sum; simpl; lia).
    rewrite Ets in Hpre.
    pose proof (trimmed_toks_nonneg (firstn k sentences)).
    erewrite chunk_loop_next; [| exact Hs |].
    2:{ apply loop_body_add; cbn [cur cur_toks].
        - apply not_blank. eapply nth_error_In; eauto.
        - lia.
        - right. lia. }
    cbn [i cur cur_toks chunk_no chunks].
    rewrite <- Ets, <- trimmed_toks_app, <- (firstn_succ_nth _ _ _ Hs).
    apply IH; lia.
Qed.

Lemma single_chunk_run :
  sentences <> [] ->
  chunk_sentences sentences file_name T O
  = Some [finalize file_name sentences 1].
Proof.
  intros Hne. unfold chunk_sentences, chunk_sentences_fuel.
  pose proof (single_chunk_loop (List.length sentences) 0
                (3 * List.length sentences) eq_refl ltac:(lia)) as Hrun.
  simpl firstn in Hrun.
  change (trimmed_toks []) with 0 in Hrun.
  unfold init_state. rewrite Hrun. simpl. unfold finish. cbn [cur chunks].
  destruct sentences; [congruence | reflexivity].
Qed.

End SingleChunk.

Lemma pages_of_none (l : list Sentence) :
  (forall x, In x l -> page x = None) -> pages_of l = [].
Proof.
  induction l as [|a l IH]; intros H; [reflexivity|].
  unfold pages_of in *. simpl. rewrite (H a (or_introl eq_refl)).
  apply IH. intros x Hx. apply H. now right.
Qed.

(** X15. A document that fits the budget is one chunk: when no sentence
    is blank and the trimmed texts have at most [T] tokens in total, the
    result is the single chunk finalized from all sentences in order,
    with number 1, for any overlap budget. *)
Theorem chunk_sentences_single `{tk : Tokenizer}
    (sentences : list Sentence) (file_name : string) (T O : Z) :
  sentences <> [] ->
  (forall s, In s sentences -> Py.strip (text s) <> EmptyString) ->
  trimmed_toks sentences <= T ->
  chunk_sentences sentences file_name T O
  = Some [finalize file_name sentences 1].
Proof. intros Hne Hnb Hfit. now apply single_chunk_run. Qed.

Lemma chunk_sentences_single_witness :
  @chunk_sentences char_tokenizer
    [mkSentence "1." (Some 2); mkSentence "2." (Some 3)] "doc" 4 1
  = Some [finalize "doc"
            [mkSentence "1." (Some 2); mkSentence "2." (Some 3)] 1].
Proof.
  apply (@chunk_sentences_single char_tokenizer).
  - discriminate.
  - intros s [<- | [<- | []]]; vm_compute; discriminate.
  - vm_compute. discriminate.
Defined.

(** X16. From text to chunk: a text without pages whose sentences fit
    the budget together becomes exactly one chunk, whose raw text is the
    cleaned text, whose page label is "1" and whose embedded text is the
    file name, two line feeds and the cleaned text. *)
Theorem text_single_chunk `{tk : Tokenizer}
    (t : string) (file_name : string) (T O : Z) :
  _clean_text t <> EmptyString ->
  trimmed_toks (split_sentences t None) <= T ->
  chunk_sentences (split_sentences t None) file_name T O
  = Some [ {| chunk_number := 1;
              page_number := "1";
              embedded_text :=
                (file_name ++ Py.nl ++ Py.nl ++ _clean_text t)%string;
              raw_text := _clean_text t |} ].
Proof.
  intros Hne Hfit.
  assert (Hss : split_sentences t None <> []).
  { intros E. now apply Segmenter.split_sentences_nil_iff in E. }
  rewrite single_chunk_run; auto.
  - unfold finalize.
    assert (Hpages : flat_map
              (fun s => match page s with Some p => [p] | None => [] end)
              (split_sentences t None) = []).
    { apply pages_of_none. intros s Hs.
      now apply Segmenter.sentence_wellformed in Hs. }
    rewrite Hpages.
    destruct (Segmenter.split_sentences_pieces t None Hne) as [-> _].
    rewrite map_map. cbn [text]. rewrite map_id.
    pose proof (Segmenter.clean_text_tidy t) as Ht.
    rewrite Segmenter.sentence_split_join with (b := true);
      [| destruct (_clean_text t); [congruence | exact Ht] | discriminate].
    rewrite (Segmenter.tidy_strip _ Ht). reflexivity.
  - intros s Hs. apply Segmenter.sentence_wellformed in Hs.
    destruct Hs as (Hn & -> & _). exact Hn.
Qed.

Lemma text_single_chunk_witness :
  @chunk_sentences char_tokenizer
    (split_sentences "  A.  B. C. " None) "doc" 2000 200
  = Some [ {| chunk_number := 1;
              page_number := "1";
              embedded_text := ("doc" ++ Py.nl ++ Py.nl ++ "A. B. C.")%string;
              raw_text := "A. B. C." |} ].
Proof.
  apply (@text_single_chunk char_tokenizer "  A.  B. C. " "doc" 2000 200).
  - vm_compute. discriminate.
  - vm_compute. discriminate.
Defined.

Lemma NoDup_map_inj {A B : Type} (f : A -> B) (l : list A) :
  (forall x y, f x = f y -> x = y) -> NoDup l -> NoDup (map f l).
Proof.
  intros Hinj. induction 1 as [|a l Hnin _ IH]; simpl; constructor; auto.
  intros Hin. apply in_map_iff in Hin. destruct Hin as (x & E & Hx).
  apply Hinj in E. subst x. contradiction.
Qed.

(** X17. No sentence is lost: for a positive target budget, every input
    sentence that is not blank and not oversized is a fresh sentence of
    some returned chunk, which is finalized from a group holding it. *)
Theorem kept_sentence_in_chunk `{tk : Tokenizer}
    (sentences : list Sentence) (file_name : string) (T O : Z)
    (s : Sentence) :
  0 < T -> In s sentences -> fits T s = true ->
  exists chunks j g,
    chunk_sentences sentences file_name T O = Some chunks /\
    nth_error (chunk_groups sentences file_name T O) j = Some g /\
    In s (fresh g) /\
    nth_error chunks j
    = Some (finalize file_name (g_sents g) (1 + Z.of_nat j)).
Proof.
  intros HT Hs Hfits.
  destruct (chunk_sentences_returns sentences file_name T O HT)
    as (st & _ & Hret).
  pose proof (groups_cover sentences file_name T O _ Hret) as Hcov.
  assert (Hexp : expand T O s = [s]).
  { unfold fits in Hfits. unfold expand.
    apply andb_true_iff in Hfits. destruct Hfits as [-> Hle].
    apply negb_true_iff in Hle. now rewrite Hle. }
  assert (Hin : In s (flat_map (expand T O) sentences)).
  { apply in_flat_map. exists s. split; [exact Hs|]. rewrite Hexp. now left. }
  rewrite <- Hcov in Hin. apply in_concat in Hin.
  destruct Hin as (l & Hl & Hsl). apply in_map_iff in Hl.
  destruct Hl as (g & <- & Hg). apply In_nth_error in Hg.
  destruct Hg as (j & Hj).
  exists (finish file_name st), j, g.
  split; [exact Hret|]. split; [exact Hj|]. split; [exact Hsl|].
  rewrite (chunk_sentences_groups _ _ _ _ _ Hret).
  now apply nth_error_number_from.
Qed.

Lemma kept_sentence_in_chunk_witness :
  exists chunks j g,
    @chunk_sentences char_tokenizer
      [mkSentence "1.2.3" None; mkSentence "4.5" None] "doc" 5 1
    = Some chunks /\
    nth_error
      (@chunk_groups char_tokenizer
         [mkSentence "1.2.3" None; mkSentence "4.5" None] "doc" 5 1) j
    = Some g /\
    In (mkSentence "4.5" None) (fresh g).
Proof.
  destruct (@kept_sentence_in_chunk char_tokenizer
              [mkSentence "1.2.3" None; mkSentence "4.5" None] "doc" 5 1
              (mkSentence "4.5" None))
    as (chunks & j & g & Hrun & Hj & Hin & _);
    [lia | simpl; auto | vm_compute; reflexivity |].
  exists chunks, j, g. auto.
Defined.

Section Blank.
Context `{tk : Tokenizer}.
Variables (sentences : list Sentence) (file_name : string) (T O : Z).

Lemma loop_body_blank (s : Sentence) (st : State) :
  Py.strip (text s) = EmptyString ->
  loop_body file_name T O s st = Some (advance st).
Proof. intros E. unfold loop_body. now rewrite E. Qed.

Lemma blank_loop (m : nat) :
  (forall s, In s sentences -> Py.strip (text s) = EmptyString) ->
  forall k fuel,
    (k + m = List.length sentences)%nat -> (m <= fuel)%nat ->
    chunk_loop fuel file_name T O sentences
      {| i := k; cur := []; cur_toks := 0; chunk_no := 1; chunks := [] |}
    = Some {| i := List.length sentences; cur := []; cur_toks := 0;
              chunk_no := 1; chunks := [] |}.
Proof.
  intros Hblank. induction m as [|m IH]; intros k fuel Hk Hfuel.
  - rewrite chunk_loop_exit by (cbn [i]; apply nth_error_None; lia).
    now replace k with (List.length sentences) by lia.
  - destruct fuel as [|fuel]; [lia|].
    destruct (nth_error sentences k) as [s|] eqn:Hs;
      [|apply nth_error_None in Hs; lia].
    erewrite chunk_loop_next; [| exact Hs |].
    2:{ apply loop_body_blank, Hblank. eapply nth_error_In; eauto. }
    unfold advance. cbn [i cur cur_toks chunk_no chunks]. apply IH; lia.
Qed.

End Blank.

(** X18. Sentences whose texts are all blank give no chunk at all, as an
    ordinary result, for every target and overlap budget. *)
Theorem blank_sentences_no_chunks `{tk : Tokenizer}
    (sentences : list Sentence) (file_name : string) (T O : Z) :
  (forall s, In s sentences -> Py.strip (text s) = EmptyString) ->
  chunk_sentences sentences file_name T O = Some [].
Proof.
  intros Hblank. unfold chunk_sentences, chunk_sentences_fuel.
  unfold init_state.
  rewrite (blank_loop sentences file_name T O (List.length sentences) Hblank
             0 (3 * List.length sentences) eq_refl ltac:(lia)).
  reflexivity.
Qed.

Lemma blank_sentences_no_chunks_witness :
  @chunk_sentences char_tokenizer
    [mkSentence "  " None; mkSentence "" (Some 2)] "doc" 0 (-1) = Some [].
Proof.
  apply (@blank_sentences_no_chunks char_tokenizer).
  intros s [<- | [<- | []]]; reflexivity.
Defined.

(** ** The vector-store identifiers of a document *)

(** X19. The identifiers that [add_chunks] builds for the chunks of one
    document, the file id, a colon and the chunk number, are pairwise
    distinct. *)
Theorem chroma_ids_distinct `{tk : Tokenizer}
    (sentences : list Sentence) (file_name file_id : string) (T O : Z)
    (chunks : list Chunk) :
  chunk_sentences sentences file_name T O = Some chunks ->
  NoDup (chroma_ids file_id chunks) /\
  List.length (chroma_ids file_id chunks) = List.length chunks.
Proof.
  intros Hret. split; [|apply length_map].
  unfold chroma_ids.
  rewrite <- (map_map chunk_number
                (fun n => (file_id ++ ":" ++ Py.str n)%string)).
  apply NoDup_map_inj.
  - intros n m E. apply Labels.append_inj_l in E.
    injection E as E. now apply Labels.str_inj.
  - rewrite (chunk_sentences_groups _ _ _ _ _ Hret), number_from_numbers.
    apply NoDup_map_inj; [intros x y; lia | apply seq_NoDup].
Qed.

Lemma chroma_ids_distinct_witness :
  NoDup ["f:1"; "f:2"; "f:3"].
Proof.
  pose proof (@chroma_ids_distinct char_tokenizer
                [mkSentence "1.2.3" None; mkSentence "4.5" None;
                 mkSentence "6.7.8.9.0" None] "doc" "f" 10 5 _ eq_refl)
    as [H _].
  vm_compute in H. exact H.
Defined.

(** ** More on the oversized-sentence splitter *)

Section WindowCover.
Context `{tk : Tokenizer}.
Variables (toks : list Z) (T step : Z).

Let n := Z.of_nat (List.length toks).

Hypothesis T_pos : 0 < T.
Hypothesis step_pos : 0 < step.
Hypothesis step_le : step <= T.
Hypothesis oversized : T < n.

(** Every token position lies in some window. *)
Lemma windows_cover (j : Z) :
  0 <= j < n ->
  exists w, In w (windows n T step) /\ fst w <= j < snd w.
Proof.
  intros Hj. unfold windows, window_count.
  set (q := (n - T + step - 1) / step).
  assert (Hq0 : 0 <= q) by (apply Z.div_pos; lia).
  assert (Hq : n <= q * step + T).
  { pose proof (Z.div_mod (n - T + step - 1) step ltac:(lia)) as E.
    pose proof (Z.mod_pos_bound (n - T + step - 1) step step_pos) as B.
    fold q in E. nia. }
  pose proof (Z.div_mod j step ltac:(lia)) as Ej.
  pose proof (Z.mod_pos_bound j step step_pos) as Bj.
  assert (Hk0 : 0 <= j / step) by (apply Z.div_pos; lia).
  destruct (Z.le_gt_cases (j / step) q) as [Hle | Hgt].
  - exists (window n T step (Z.to_nat (j / step))). split.
    + apply in_map, in_seq. lia.
    + unfold window. cbn [fst snd]. rewrite Z2Nat.id by lia. nia.
  - exists (window n T step (Z.to_nat q)). split.
    + apply in_map, in_seq. lia.
    + unfold window. cbn [fst snd]. rewrite Z2Nat.id by lia. nia.
Qed.

(** Consecutive windows share exactly [T - step] tokens. *)
Lemma windows_overlap (k : nat) :
  (S k < List.length (windows n T step))%nat ->
  snd (nth k (windows n T step) (0, 0))
  - fst (nth (S k) (windows n T step) (0, 0)) = T - step.
Proof.
  intros Hk.
  destruct (windows_full toks T step step_pos oversized k Hk) as [E _].
  fold n in E. rewrite E.
  unfold windows in *. rewrite length_map, length_seq in Hk.
  rewrite nth_indep with (d' := window n T step 0)
    by (rewrite length_map, length_seq; lia).
  rewrite map_nth, seq_nth by lia.
  unfold window. cbn [fst snd Nat.add]. lia.
Qed.

End WindowCover.

(** X20. The windows of the splitter leave no token out: for [T > 0],
    [O >= 0] and a text of more than [T] tokens, every token position
    lies in some window, and two consecutive windows share exactly [O]
    tokens when [O < T] and none otherwise. *)
Theorem split_windows_cover `{tk : Tokenizer} (text : string) (T O : Z) :
  0 < T -> 0 <= O ->
  T < Z.of_nat (List.length (encode text)) ->
  let toks := encode text in
  let n := Z.of_nat (List.length toks) in
  let ws := windows n T (split_step T O) in
  _split_text_by_tokens text T O
    = Some (filter Py.truthy (map (piece_of toks) ws)) /\
  (forall j, 0 <= j < n -> exists w, In w ws /\ fst w <= j < snd w) /\
  (forall k, (S k < List.length ws)%nat ->
     snd (nth k ws (0, 0)) - fst (nth (S k) ws (0, 0))
     = if O <? T then O else 0).
Proof.
  intros HT HO Hbig toks n ws.
  pose proof (split_step_pos T O HT) as Hpos.
  pose proof (split_step_le T O) as Hle.
  split; [|split].
  - unfold _split_text_by_tokens. fold toks.
    destruct (Z.leb_spec (Z.of_nat (List.length toks)) T);
      [unfold toks in *; lia|].
    now apply split_loop_all.
  - intros j Hj. now apply windows_cover.
  - intros k Hk. unfold ws, n.
    rewrite (windows_overlap toks T (split_step T O)) by assumption.
    rewrite split_step_spec by exact HO.
    destruct (Z.ltb_spec 0 (T - O)), (Z.ltb_spec O T); lia.
Qed.

Lemma split_windows_cover_witness :
  @_split_text_by_tokens char_tokenizer "1.2.3" 3 1 = Some ["1.2"; "2.3"].
Proof.
  destruct (@split_windows_cover char_tokenizer "1.2.3" 3 1) as (Hrun & _);
    [lia | lia | vm_compute; reflexivity |].
  rewrite Hrun. reflexivity.
Defined.

Section NonPositiveBudget.
Context `{tk : Tokenizer}.
Variables (file_name : string) (T O : Z).

Hypothesis T_nonpos : T <= 0.

(** With a budget that is not positive the window never advances and
    never reaches the end. *)
Lemma split_loop_diverges (toks : list Z) :
  toks <> [] ->
  forall fuel start pieces,
    start <= 0 ->
    split_loop fuel toks T (split_step T O) start pieces = None.
Proof.
  intros Hne.
  assert (Hn : 0 < Z.of_nat (List.length toks))
    by (destruct toks; [congruence | simpl; lia]).
  assert (Hstep : split_step T O = T).
  { unfold split_step. destruct (Z.leb_spec (T - Z.max 0 O) 0); lia. }
  induction fuel as [|fuel IH]; intros start pieces Hs; simpl.
  - destruct (Z.ltb_spec start (Z.of_nat (List.length toks)));
      [reflexivity|lia].
  - destruct (Z.ltb_spec start (Z.of_nat (List.length toks))); [|lia].
    destruct (Z.eqb_spec (Z.min (start + T) (Z.of_nat (List.length toks)))
                (Z.of_nat (List.length toks))); [lia|].
    apply IH. lia.
Qed.

Lemma split_text_diverges (t : string) :
  encode t <> [] -> _split_text_by_tokens t T O = None.
Proof.
  intros Hne. unfold _split_text_by_tokens.
  destruct (Z.leb_spec (Z.of_nat (List.length (encode t))) T).
  - destruct (encode t); [congruence | simpl in *; lia].
  - now apply split_loop_diverges.
Qed.

Lemma loop_body_index (s : Sentence) (st st' : State) :
  loop_body file_name T O s st = Some st' ->
  i st' = i st \/ i st' = S (i st).
Proof.
  intros Hb. apply (loop_body_step file_name T O s st st' init_ghost) in Hb.
  destruct Hb; cbn [i advance]; auto.
  destruct (emit_parts_spec file_name (page s) parts (flush file_name st))
    as (-> & _).
  destruct (flush_spec file_name st init_ghost) as (-> & _). auto.
Qed.

Lemma loop_body_diverges (s : Sentence) (st : State) :
  Py.strip (text s) <> EmptyString ->
  encode (Py.strip (text s)) <> [] ->
  loop_body file_name T O s st = None.
Proof.
  intros Hne Htoks. unfold loop_body.
  destruct (Py.strip (text s)) as [|c r] eqn:E; [congruence|]. simpl.
  assert (Hpos : 0 < _tok_len (String c r)).
  { unfold _tok_len. destruct (encode (String c r)); [congruence|].
    simpl. lia. }
  destruct (Z.gtb_spec (_tok_len (String c r)) T); [|lia].
  now rewrite split_text_diverges.
Qed.

(** The loop cannot get past a sentence on which an iteration does not
    return. *)
Lemma chunk_loop_diverges (sentences : list Sentence) (k : nat)
    (s : Sentence) :
  nth_error sentences k = Some s ->
  (forall st, loop_body file_name T O s st = None) ->
  forall fuel st,
    (i st <= k)%nat ->
    chunk_loop fuel file_name T O sentences st = None.
Proof.
  intros Hs Hdiv. induction fuel as [|fuel IH]; intros st Hi; simpl.
  - destruct (nth_error sentences (i st)) eqn:E; [reflexivity|].
    apply nth_error_None in E.
    assert (k < List.length sentences)%nat
      by (apply nth_error_Some; congruence).
    lia.
  - destruct (nth_error sentences (i st)) as [s0|] eqn:E.
    + destruct (loop_body file_name T O s0 st) as [st'|] eqn:Hb;
        [|reflexivity].
      apply IH. destruct (loop_body_index _ _ _ Hb) as [-> | ->]; [lia|].
      destruct (Nat.eq_dec (i st) k) as [Ek | Ek]; [|lia].
      rewrite Ek, Hs in E. injection E as <-.
      rewrite Hdiv in Hb. discriminate.
    + apply nth_error_None in E.
      assert (k < List.length sentences)%nat
        by (apply nth_error_Some; congruence).
      lia.
Qed.

End NonPositiveBudget.

(** X21. A target budget that is not positive makes the code loop for
    ever on the first sentence that has a token: the splitter's window
    neither advances nor reaches the end, so no amount of fuel makes the
    splitter's loop or [chunk_sentences] return. *)
Theorem nonpositive_budget_hangs `{tk : Tokenizer}
    (sentences : list Sentence) (file_name : string) (T O : Z)
    (s : Sentence) :
  T <= 0 ->
  In s sentences ->
  Py.strip (text s) <> EmptyString ->
  encode (Py.strip (text s)) <> [] ->
  (forall fuel,
     split_loop fuel (encode (Py.strip (text s))) T (split_step T O) 0 []
     = None) /\
  (forall fuel,
     chunk_sentences_fuel fuel sentences file_name T O = None).
Proof.
  intros HT Hs Hne Htoks. split.
  - intros fuel. apply split_loop_diverges; auto. lia.
  - intros fuel. unfold chunk_sentences_fuel.
    apply In_nth_error in Hs. destruct Hs as (k & Hk).
    rewrite (chunk_loop_diverges file_name T O sentences k s Hk);
      [reflexivity | | cbn [i init_state]; lia].
    intros st. now apply loop_body_diverges.
Qed.

Lemma nonpositive_budget_hangs_witness :
  @chunk_sentences_fuel char_tokenizer 1000
    [mkSentence " " None; mkSentence "1." None] "doc" 0 0 = None.
Proof.
  apply (@nonpositive_budget_hangs char_tokenizer
           [mkSentence " " None; mkSentence "1." None] "doc" 0 0
           (mkSentence "1." None)).
  - lia.
  - simpl. auto.
  - vm_compute. discriminate.
  - vm_compute. discriminate.
Defined.

(** ** The batched embedding of the chunks *)

Section Batches.
Variable E : Type.
Variables (embed : list string -> option (list E)) (f : string -> E).
Variables (inputs : list string) (batch_size : Z).

Let n := Z.of_nat (List.length inputs).

Hypothesis batch_pos : 0 < batch_size.
Hypothesis embed_each :
  forall b, b <> [] -> Z.of_nat (List.length b) <= batch_size ->
            embed b = Some (map f b).

Lemma batch_slice (i : Z) :
  0 <= i < n ->
  Py.slice inputs i (i + batch_size)
  = firstn (Z.to_nat batch_size) (skipn (Z.to_nat i) inputs).
Proof.
  intros Hi. unfold Py.slice, Py.clamp. fold n.
  destruct (Z.ltb_spec i 0); [lia|].
  destruct (Z.ltb_spec (i + batch_size) 0); [lia|].
  replace (Z.min i n) with i by lia.
  destruct (Z.le_gt_cases (i + batch_size) n).
  - replace (Z.min (i + batch_size) n - i) with batch_size by lia.
    reflexivity.
  - replace (Z.min (i + batch_size) n - i) with (n - i) by lia.
    rewrite !firstn_all2; [reflexivity | |];
      rewrite length_skipn; unfold n; lia.
Qed.

(** The loop hands every input to [embed] once, in order, in batches that
    are not empty and not larger than the batch size. *)
Lemma embed_loop_spec :
  forall fuel i acc,
    0 <= i -> n - i <= Z.of_nat fuel ->
    embed_loop fuel embed inputs batch_size i acc
    = Some (acc ++ map f (skipn (Z.to_nat i) inputs)).
Proof.
  induction fuel as [|fuel IH]; intros i acc Hi Hfuel; simpl; fold n.
  - destruct (Z.ltb_spec i n); [lia|].
    rewrite skipn_all2 by (unfold n in *; lia). simpl.
    now rewrite app_nil_r.
  - destruct (Z.ltb_spec i n).
    + rewrite batch_slice by lia.
      set (rest := skipn (Z.to_nat i) inputs).
      assert (Hrest : rest <> []).
      { intros E0. apply (f_equal (@List.length _)) in E0.
        unfold rest in E0. rewrite length_skipn in E0. simpl in E0.
        unfold n in *. lia. }
      rewrite embed_each.
      * rewrite IH by lia. rewrite <- app_assoc, <- map_app. do 3 f_equal.
        rewrite Z2Nat.inj_add by lia.
        replace (Z.to_nat i + Z.to_nat batch_size)%nat
          with (Z.to_nat batch_size + Z.to_nat i)%nat by lia.
        rewrite <- skipn_skipn. apply firstn_skipn.
      * destruct rest as [|x rest']; [congruence|].
        destruct (Z.to_nat batch_size) eqn:Eb; [lia | discriminate].
      * rewrite length_firstn. lia.
    + rewrite skipn_all2 by (unfold n in *; lia). simpl.
      now rewrite app_nil_r.
Qed.

End Batches.

(** X22. The batched embedding loop of the upload covers every chunk
    once and in order: if the embedding call answers every batch of 1 to
    64 texts with one vector for each text, the loop returns one vector
    for each chunk, in chunk order. *)
Theorem embed_all_chunks {E : Type}
    (embed : list string -> option (list E)) (f : string -> E)
    (chunks : list Chunk) :
  (forall b, b <> [] -> (List.length b <= 64)%nat ->
             embed b = Some (map f b)) ->
  embed_all embed chunks = Some (map (fun c => f (embedded_text c)) chunks).
Proof.
  intros Hembed. unfold embed_all.
  rewrite (embed_loop_spec E embed f (map embedded_text chunks) 64);
    try lia.
  - simpl. now rewrite map_map.
  - intros b Hb Hlen. apply Hembed; [exact Hb | lia].
Qed.

Lemma embed_all_chunks_witness :
  embed_all (fun b => Some (map String.length b))
    [finalize "doc" [mkSentence "A." None] 1;
     finalize "doc" [mkSentence "B. C." None] 2]
  = Some [7%nat; 10%nat].
Proof.
  rewrite (embed_all_chunks (fun b => Some (map String.length b))
             String.length); [reflexivity|].
  intros b _ _. reflexivity.
Defined.

(** ** The pieces of the splitter *)

(** X23. A text within the budget is returned as the only piece, as it
    is, blank or not.  A text over the budget gives pieces that are all
    trimmed and not empty, and, for [T > 0] and [O >= 0], at most one for
    each window. *)
Theorem split_text_pieces_shape `{tk : Tokenizer} (text : string) (T O : Z) :
  let n := Z.of_nat (List.length (encode text)) in
  (n <= T -> _split_text_by_tokens text T O = Some [text]) /\
  (forall parts,
     T < n -> _split_text_by_tokens text T O = Some parts ->
     Forall (fun p => p <> EmptyString /\ Py.strip p = p) parts /\
     (0 < T -> 0 <= O ->
      (List.length parts <= window_count n T (split_step T O))%nat)).
Proof.
  intros n. split.
  - intros Hle. unfold _split_text_by_tokens. fold n.
    destruct (Z.leb_spec n T); [reflexivity | lia].
  - intros parts Hbig Hrun. split.
    + exact (split_text_pieces text T O parts Hbig Hrun).
    + intros HT HO. unfold _split_text_by_tokens in Hrun. fold n in Hrun.
      destruct (Z.leb_spec n T); [lia|].
      rewrite split_loop_all in Hrun;
        auto using split_step_pos, split_step_le.
      assert (E : parts = filter Py.truthy
                            (map (piece_of (encode text))
                               (windows n T (split_step T O))))
        by (unfold n; congruence).
      rewrite E.
      etransitivity; [apply filter_length_le|].
      unfold windows. now rewrite !length_map, length_seq.
Qed.

Lemma split_text_pieces_shape_witness :
  @_split_text_by_tokens char_tokenizer " " 1 0 = Some [" "] /\
  Forall (fun p => p <> EmptyString /\ Py.strip p = p) ["1.2"; "2.3"].
Proof.
  destruct (@split_text_pieces_shape char_tokenizer " " 1 0) as [Hshort _].
  destruct (@split_text_pieces_shape char_tokenizer "1.2.3" 3 1)
    as [_ Hlong].
  split.
  - apply Hshort. vm_compute. discriminate.
  - apply (Hlong ["1.2"; "2.3"]); [vm_compute; reflexivity | reflexivity].
Defined.
